(** * goconfig: an INI-style configuration store and its reader

    A shallow embedding of [goconfig.go] (the store, [getValue], [setValue],
    the comment setters, the typed accessors) and of the line reader [read],
    followed by the properties of the specification that were checked
    against it.

    Go strings are byte strings: they are modelled by [string], one [ascii]
    per byte.  Go maps are modelled by [gmap]; the slices [sectionList] and
    [keyList] by lists.  The read/write lock of the store is not modelled
    (every operation is taken as one atomic step). *)

From Stdlib Require Import ZArith Ascii String List DecimalString Lia.
From stdpp Require Import base option gmap strings list.

Open Scope string_scope.

(** ** The functions of Go's [strings], [regexp] and [fmt] that the code calls *)

Module GoStrings.

Definition len (s : string) : nat := String.length s.

(** [s[i:]] *)
Fixpoint slice_from (i : nat) (s : string) : string :=
  match i, s with
  | 0, _ => s
  | S i', String _ s' => slice_from i' s'
  | S _, EmptyString => EmptyString
  end.

(** [s[:j]] *)
Fixpoint slice_to (j : nat) (s : string) : string :=
  match j, s with
  | 0, _ => EmptyString
  | S j', String ch s' => String ch (slice_to j' s')
  | S _, EmptyString => EmptyString
  end.

(** [s[i:j]] *)
Definition slice (i j : nat) (s : string) : string :=
  slice_to (j - i) (slice_from i s).

Definition byte_at (i : nat) (s : string) : option ascii := String.get i s.

Definition rev_string (s : string) : string :=
  string_of_list_ascii (rev (list_ascii_of_string s)).

Definition HasPrefix (s p : string) : bool := String.prefix p s.

(** [strings.Index(s, sep)]: [None] stands for -1. *)
Fixpoint Index (s sep : string) : option nat :=
  if HasPrefix s sep then Some 0
  else match s with
       | EmptyString => None
       | String _ s' => S <$> Index s' sep
       end.

(** [strings.LastIndex(s, sep)]: [None] stands for -1. *)
Fixpoint LastIndex (s sep : string) : option nat :=
  match s with
  | EmptyString => if HasPrefix s sep then Some 0 else None
  | String _ s' =>
      match LastIndex s' sep with
      | Some i => Some (S i)
      | None => if HasPrefix s sep then Some 0 else None
      end
  end.

Fixpoint mem_byte (ch : ascii) (chars : string) : bool :=
  match chars with
  | EmptyString => false
  | String x chars' => Ascii.eqb ch x || mem_byte ch chars'
  end.

(** [strings.IndexAny(s, chars)] for a set [chars] of ASCII bytes. *)
Fixpoint IndexAny (s chars : string) : option nat :=
  match s with
  | EmptyString => None
  | String ch s' =>
      if mem_byte ch chars then Some 0 else S <$> IndexAny s' chars
  end.

(** [strings.TrimLeft(s, cutset)] for an ASCII [cutset]: every leading byte
    that belongs to the cut set goes. *)
Fixpoint TrimLeft (s cutset : string) : string :=
  match s with
  | EmptyString => EmptyString
  | String ch s' => if mem_byte ch cutset then TrimLeft s' cutset else s
  end.

(** [strings.TrimRight(s, cutset)] for an ASCII [cutset]. *)
Definition TrimRight (s cutset : string) : string :=
  rev_string (TrimLeft (rev_string s) cutset).

(** [strings.Replace(s, old, new, -1)] for a non-empty [old]: the
    occurrences of [old] are replaced from left to right, without overlap.
    [skip] counts the bytes of an occurrence that is being skipped. *)
Fixpoint replace_from (skip : nat) (s old new : string) : string :=
  match s with
  | EmptyString => EmptyString
  | String ch s' =>
      match skip with
      | S k => replace_from k s' old new
      | 0 =>
          if HasPrefix s old
          then new ++ replace_from (len old - 1) s' old new
          else String ch (replace_from 0 s' old new)
      end
  end.

Definition Replace (s old new : string) : string := replace_from 0 s old new.

(** *** [strings.TrimSpace] *)

Definition byteN (ch : ascii) : nat := nat_of_ascii ch.

(** The table [asciiSpace]: tab, line feed, vertical tab, form feed,
    carriage return and space. *)
Definition asciiSpace (ch : ascii) : bool :=
  let n := byteN ch in
  (Nat.leb 9 n && Nat.leb n 13) || Nat.eqb n 32.

(** The UTF-8 encodings of the other runes of [unicode.IsSpace]:
    U+0085, U+00A0, U+1680, U+2000..U+200A, U+2028, U+2029, U+202F, U+205F
    and U+3000, as lists of byte values. *)
Definition wideSpaces : list (list nat) :=
  [ [194; 133]; [194; 160]; [225; 154; 128];
    [226; 128; 128]; [226; 128; 129]; [226; 128; 130]; [226; 128; 131];
    [226; 128; 132]; [226; 128; 133]; [226; 128; 134]; [226; 128; 135];
    [226; 128; 136]; [226; 128; 137]; [226; 128; 138];
    [226; 128; 168]; [226; 128; 169]; [226; 128; 175];
    [226; 129; 159]; [227; 128; 128] ].

Fixpoint starts_with (bs : list nat) (s : string) : bool :=
  match bs, s with
  | [], _ => true
  | b :: bs', String ch s' => Nat.eqb (byteN ch) b && starts_with bs' s'
  | _ :: _, EmptyString => false
  end.

(** Width in bytes of the white-space rune at the head of [s] (0 when the
    first rune is not white space).  [seqs] lists the encodings to look
    for, in reading order of [s]. *)
Definition space_width (seqs : list (list nat)) (s : string) : nat :=
  match s with
  | EmptyString => 0
  | String ch _ =>
      if asciiSpace ch then 1
      else match List.find (fun bs => starts_with bs s) seqs with
           | Some bs => length bs
           | None => 0
           end
  end.

(** Drops the white-space runes at the head of [s]; [skip] counts the
    remaining bytes of the rune that is being dropped. *)
Fixpoint trim_head (seqs : list (list nat)) (skip : nat) (s : string) : string :=
  match s with
  | EmptyString => EmptyString
  | String _ s' =>
      match skip with
      | S k => trim_head seqs k s'
      | 0 =>
          match space_width seqs s with
          | 0 => s
          | S k => trim_head seqs k s'
          end
      end
  end.

Definition TrimLeftSpace (s : string) : string := trim_head wideSpaces 0 s.

(** The last rune is decoded backwards: a string ends with a white-space
    rune exactly when it ends with one of the encodings. *)
Definition TrimRightSpace (s : string) : string :=
  rev_string (trim_head (map (@rev nat) wideSpaces) 0 (rev_string s)).

Definition TrimSpace (s : string) : string := TrimRightSpace (TrimLeftSpace s).

(** *** [varPattern = regexp.MustCompile(`%\(([^\)]+)\)s`)] *)

(** Position of the first [)] of [s]. *)
Definition close_paren (s : string) : option nat := IndexAny s ")".

(** Length of the match of [varPattern] that starts at the head of [s]:
    [%(], then the bytes up to the first [)], at least one, then [)s]. *)
Definition match_here (s : string) : option nat :=
  match s with
  | String "%"%char (String "("%char rest) =>
      match close_paren rest with
      | Some (S n) =>
          match byte_at (S (S n)) rest with
          | Some "s"%char => Some (S n + 4)
          | _ => None
          end
      | _ => None
      end
  | _ => None
  end.

(** [varPattern.FindString(s)]: the leftmost match, or the empty string. *)
Fixpoint FindString (s : string) : string :=
  match match_here s with
  | Some n => slice_to n s
  | None =>
      match s with
      | EmptyString => EmptyString
      | String _ s' => FindString s'
      end
  end.

(** [fmt.Sprint(n)] for an [int]. *)
Definition Sprint (n : Z) : string := NilZero.string_of_int (Z.to_int n).

End GoStrings.

Import GoStrings.

(** ** The store: [ConfigFile], [getValue], [setValue], the comment setters *)

Definition DEFAULT_SECTION : string := "DEFAULT".

(** Maximum allowed depth when recursively substituting variable names. *)
Definition _DEPTH_VALUES : nat := 200.

Inductive ParseError :=
| ERR_SECTION_NOT_FOUND
| ERR_KEY_NOT_FOUND
| ERR_BLANK_SECTION_NAME
| ERR_COULD_NOT_PARSE.

Record getError := GetError { Reason : ParseError; Name : string }.

Record readError := ReadError { readReason : ParseError; Content : string }.

Record ConfigFile := {
  fileNames : list string;
  data : gmap string (gmap string string);
  sectionList : list string;
  keyList : gmap string (list string);
  sectionComments : gmap string string;
  keyComments : gmap string (gmap string string);
  BlockMode : bool
}.

Definition newConfigFile (names : list string) : ConfigFile :=
  {| fileNames := names; data := ∅; sectionList := []; keyList := ∅;
     sectionComments := ∅; keyComments := ∅; BlockMode := true |}.

Definition with_data (c : ConfigFile) (d : gmap string (gmap string string)) : ConfigFile :=
  {| fileNames := fileNames c; data := d; sectionList := sectionList c;
     keyList := keyList c; sectionComments := sectionComments c;
     keyComments := keyComments c; BlockMode := BlockMode c |}.

Definition with_sectionList (c : ConfigFile) (l : list string) : ConfigFile :=
  {| fileNames := fileNames c; data := data c; sectionList := l;
     keyList := keyList c; sectionComments := sectionComments c;
     keyComments := keyComments c; BlockMode := BlockMode c |}.

Definition with_keyList (c : ConfigFile) (k : gmap string (list string)) : ConfigFile :=
  {| fileNames := fileNames c; data := data c; sectionList := sectionList c;
     keyList := k; sectionComments := sectionComments c;
     keyComments := keyComments c; BlockMode := BlockMode c |}.

Definition with_sectionComments (c : ConfigFile) (m : gmap string string) : ConfigFile :=
  {| fileNames := fileNames c; data := data c; sectionList := sectionList c;
     keyList := keyList c; sectionComments := m;
     keyComments := keyComments c; BlockMode := BlockMode c |}.

Definition with_keyComments (c : ConfigFile) (m : gmap string (gmap string string)) : ConfigFile :=
  {| fileNames := fileNames c; data := data c; sectionList := sectionList c;
     keyList := keyList c; sectionComments := sectionComments c;
     keyComments := m; BlockMode := BlockMode c |}.

(** Blank section name represents DEFAULT section. *)
Definition normSection (section : string) : string :=
  if Nat.eqb (len section) 0 then DEFAULT_SECTION else section.

(** A comment block that starts with neither [#] nor [;] gets the prefix
    [; ].  Called on non-empty comments only. *)
Definition normComments (comments : string) : string :=
  match comments with
  | String ch _ =>
      if negb (Ascii.eqb ch "#") && negb (Ascii.eqb ch ";")
      then "; " ++ comments else comments
  | EmptyString => comments
  end.

Definition setSectionComments (c : ConfigFile) (section comments : string)
  : ConfigFile * bool :=
  let section := normSection section in
  if Nat.eqb (len comments) 0 then
    (with_sectionComments c (delete section (sectionComments c)), true)
  else
    let ok := bool_decide (is_Some (sectionComments c !! section)) in
    (with_sectionComments c
       (<[section := normComments comments]> (sectionComments c)), negb ok).

(** What a call of [getValue] returns ([value], [err]); [None] for [err] is
    Go's [nil]. *)
Definition getResult : Type := string * option getError.

(** The loop [for i = 0; i < _DEPTH_VALUES; i++] of [getValue]: [n] is the
    number of iterations left, [lookupDefault] is the call
    [c.getValue(DEFAULT_SECTION, _)], [sec] is [c.data[section]].
    The loop returns [None] when a call of [lookupDefault] does not return. *)
Fixpoint substLoop (lookupDefault : string -> option getResult)
    (sec : gmap string string) (section : string)
    (n : nat) (value : string) : option getResult :=
  match n with
  | 0 => Some (value, None)
  | S n' =>
      let vr := FindString value in
      if Nat.eqb (len vr) 0 then Some (value, None)
      else
        (* Take off leading '%(' and trailing ')s'. *)
        let noption := TrimRight (TrimLeft vr "%(") ")s" in
        (* Search variable in default section. *)
        match lookupDefault noption with
        | None => None
        | Some (nvalue, err) =>
            let nvalue :=
              if bool_decide (is_Some err) && negb (String.eqb section DEFAULT_SECTION)
              then (* Search in the same section. *)
                match sec !! noption with
                | Some v => v
                | None => nvalue
                end
              else nvalue in
            substLoop lookupDefault sec section n' (Replace value vr nvalue)
        end
  end.

(** [getValue]: the function calls itself, for the parent of a sub-section
    and for every variable it substitutes, with no bound of its own on the
    nesting of these calls.  [depth] bounds that nesting: [None] says that
    the call needs more than [depth] nested activations. *)
Fixpoint getValue (depth : nat) (c : ConfigFile) (section key : string)
  : option getResult :=
  match depth with
  | 0 => None
  | S d =>
      let section := normSection section in
      match data c !! section with
      | None => Some ("", Some (GetError ERR_SECTION_NOT_FOUND section))
      | Some sec =>
          match sec !! key with
          | None =>
              (* Check if it is a sub-section. *)
              match LastIndex section "." with
              | Some i => getValue d c (slice_to i section) key
              | None => Some ("", Some (GetError ERR_KEY_NOT_FOUND key))
              end
          | Some value =>
              substLoop (getValue d c DEFAULT_SECTION) sec section
                _DEPTH_VALUES value
          end
      end
  end.

Definition setValue (c : ConfigFile) (section key value : string)
  : ConfigFile * bool :=
  let section := normSection section in
  if Nat.eqb (len key) 0 then (c, false)
  else
    (* Check if section exists. *)
    let c1 :=
      match data c !! section with
      | Some _ => c
      | None =>
          with_sectionList (with_data c (<[section := ∅]> (data c)))
            (sectionList c ++ [section])%list
      end in
    (* Check if key exists. *)
    let sec := default ∅ (data c1 !! section) in
    let ok := bool_decide (is_Some (sec !! key)) in
    let c2 := with_data c1 (<[section := <[key := value]> sec]> (data c1)) in
    if ok then (c2, false)
    else
      (with_keyList c2
         (<[section := (default [] (keyList c2 !! section) ++ [key])%list]>
            (keyList c2)),
       true).

Definition setKeyComments (c : ConfigFile) (section key comments : string)
  : ConfigFile * bool :=
  let section := normSection section in
  match keyComments c !! section with
  | Some kc =>
      if Nat.eqb (len comments) 0 then
        (with_keyComments c (<[section := delete key kc]> (keyComments c)), true)
      else
        let ok := bool_decide (is_Some (kc !! key)) in
        (with_keyComments c
           (<[section := <[key := normComments comments]> kc]> (keyComments c)),
         negb ok)
  | None =>
      if Nat.eqb (len comments) 0 then (c, true)
      else
        (with_keyComments c
           (<[section := {[key := normComments comments]}]> (keyComments c)),
         true)
  end.

(** ** The reader: [read] *)

(** The double quote, the triple double quote and the backtick. *)
Definition dquote : ascii := "034"%char.
Definition quote1 : string := String dquote EmptyString.
Definition quote3 : string := String dquote (String dquote (String dquote EmptyString)).
Definition backquote : string := "`".
Definition newline : ascii := "010"%char.

(** Go's [int], taken as 64 bits wide: [count++] wraps around. *)
Definition int_wrap (z : Z) : Z := ((z + 2 ^ 63) mod 2 ^ 64 - 2 ^ 63)%Z.
Definition int_incr (z : Z) : Z := int_wrap (z + 1).

(** The local variables of [read] that live across lines, with the store. *)
Record readState := {
  rs_store : ConfigFile;
  rs_count : Z;          (* Counter for auto increment. *)
  rs_section : string;   (* Current section name. *)
  rs_comments : string
}.

(** The quote marker that opens the key of [line], or the empty string. *)
Definition keyQuoteOf (line : string) : string :=
  match byte_at 0 line with
  | Some ch =>
      if Ascii.eqb ch dquote then
        if Nat.leb 6 (len line) && String.eqb (slice 0 3 line) quote3
        then quote3 else quote1
      else if Ascii.eqb ch "`" then backquote
      else ""
  | None => ""
  end.

(** The key of a key/value line and the position [i] of its delimiter;
    [None] is the return of [readError{ERR_COULD_NOT_PARSE, line}]. *)
Definition parseKey (line : string) : option (nat * string) :=
  let keyQuote := keyQuoteOf line in
  if negb (String.eqb keyQuote "") then
    let qLen := len keyQuote in
    match Index (slice_from qLen line) keyQuote with
    | None => None
    | Some pos =>
        let pos := pos + qLen in
        match IndexAny (slice_from pos line) "=:" with
        | None | Some 0 => None
        | Some i => Some (i + pos, slice qLen pos line)
        end
    end
  else
    match IndexAny line "=:" with
    | None | Some 0 => None
    | Some i => Some (i, TrimSpace (slice 0 i line))
    end.

(** The quote marker that opens the value [lineRight], or the empty string. *)
Definition valQuoteOf (lineRight : string) : string :=
  let lineRightLength := len lineRight in
  let firstChar := if Nat.leb 2 lineRightLength then slice 0 1 lineRight else "" in
  if String.eqb firstChar backquote then backquote
  else if Nat.leb 6 lineRightLength && String.eqb (slice 0 3 lineRight) quote3
       then quote3
       else "".

(** The value of a key/value line, from what follows the delimiter, trimmed;
    [None] is the return of [readError{ERR_COULD_NOT_PARSE, line}]. *)
Definition parseValue (lineRight : string) : option string :=
  let valQuote := valQuoteOf lineRight in
  if negb (String.eqb valQuote "") then
    let qLen := len valQuote in
    match LastIndex (slice_from qLen lineRight) valQuote with
    | None => None
    | Some pos =>
        let pos := pos + qLen in
        Some (slice qLen pos lineRight)
    end
  else Some (TrimSpace (slice_from 0 lineRight)).

Section Reader.

(** The package variable [LineBreak]: a line feed, or carriage return and
    line feed on Windows. *)
Variable LineBreak : string.

(** The last alternative of the [switch]: a key/value line. *)
Definition readKeyValue (st : readState) (line : string) : readState + readError :=
  match parseKey line with
  | None => inr (ReadError ERR_COULD_NOT_PARSE line)
  | Some (i, key) =>
      (* Check if it needs auto increment. *)
      let '(key, count) :=
        if String.eqb key "-"
        then ("#" ++ Sprint (rs_count st), int_incr (rs_count st))
        else (key, rs_count st) in
      match parseValue (TrimSpace (slice_from (i + 1) line)) with
      | None => inr (ReadError ERR_COULD_NOT_PARSE line)
      | Some value =>
          let c := fst (setValue (rs_store st) (rs_section st) key value) in
          (* Set key comments and empty if it has comments. *)
          if Nat.ltb 0 (len (rs_comments st)) then
            inl {| rs_store := fst (setKeyComments c (rs_section st) key (rs_comments st));
                   rs_count := count; rs_section := rs_section st;
                   rs_comments := "" |}
          else
            inl {| rs_store := c; rs_count := count;
                   rs_section := rs_section st; rs_comments := rs_comments st |}
      end
  end.

Definition isComment (line : string) : bool :=
  match byte_at 0 line with
  | Some ch => Ascii.eqb ch "#" || Ascii.eqb ch ";"
  | None => false
  end.

Definition isHeader (line : string) : bool :=
  match byte_at 0 line, byte_at (len line - 1) line with
  | Some a, Some b => Ascii.eqb a "[" && Ascii.eqb b "]"
  | _, _ => false
  end.

(** The body of the loop of [read] for one line, already trimmed. *)
Definition readLine (st : readState) (line : string) : readState + readError :=
  let lineLengh := len line in
  if Nat.eqb lineLengh 0 then inl st                      (* Empty line *)
  else if isComment line then                             (* Comment *)
    inl {| rs_store := rs_store st; rs_count := rs_count st;
           rs_section := rs_section st;
           rs_comments :=
             if Nat.eqb (len (rs_comments st)) 0 then line
             else rs_comments st ++ LineBreak ++ line |}
  else if isHeader line then                              (* New section. *)
    let section := TrimSpace (slice 1 (lineLengh - 1) line) in
    let '(c, comments) :=
      if Nat.ltb 0 (len (rs_comments st))
      then (fst (setSectionComments (rs_store st) section (rs_comments st)), "")
      else (rs_store st, rs_comments st) in
    (* Make section exist even though it does not have any key. *)
    let c := fst (setValue c section " " " ") in
    inl {| rs_store := c; rs_count := 1; rs_section := section;
           rs_comments := comments |}
  else if String.eqb (rs_section st) "" then              (* No section defined so far *)
    inr (ReadError ERR_BLANK_SECTION_NAME line)
  else readKeyValue st line.

(** The loop of [read].  [cur] holds the bytes of the current line read so
    far: [buf.ReadString] returns them with the line feed that ends the
    line, or at the end of the input with [io.EOF]. *)
Fixpoint readLoop (st : readState) (cur input : string) : readState * option readError :=
  match input with
  | EmptyString =>
      match readLine st (TrimSpace cur) with
      | inl st' => (st', None)
      | inr e => (st, Some e)
      end
  | String ch rest =>
      if Ascii.eqb ch newline then
        match readLine st (TrimSpace (cur ++ String ch EmptyString)) with
        | inl st' => readLoop st' "" rest
        | inr e => (st, Some e)
        end
      else readLoop st (cur ++ String ch EmptyString) rest
  end.

(** Handle BOM-UTF8. *)
Definition skipBOM (input : string) : string :=
  if starts_with [239; 187; 191] input then slice_from 3 input else input.

Definition initState (c : ConfigFile) : readState :=
  {| rs_store := c; rs_count := 1; rs_section := DEFAULT_SECTION;
     rs_comments := "" |}.

(** [c.read(reader)] on a reader that delivers the bytes [input]: the store
    as [read] leaves it and the error returned. *)
Definition read (c : ConfigFile) (input : string) : ConfigFile * option readError :=
  let '(st, err) := readLoop (initState c) "" (skipBOM input) in
  (rs_store st, err).

End Reader.

(** ** The typed accessors over the package-level store [cf] *)

Inductive error :=
| EGet (e : getError)                  (* a [getError] *)
| ENum (Func Num : string).            (* a [*strconv.NumError] *)

(** [strconv.ParseBool] *)
Definition ParseBool (str : string) : bool * option error :=
  if existsb (String.eqb str) ["1"; "t"; "T"; "TRUE"; "true"; "True"]
  then (true, None)
  else if existsb (String.eqb str) ["0"; "f"; "F"; "FALSE"; "false"; "False"]
  then (false, None)
  else (false, Some (ENum "ParseBool" str)).

Section Accessors.

Variable cf : ConfigFile.

Definition Value (depth : nat) (section key : string) : option getResult :=
  getValue depth cf section key.

(** [MustValue]: [defaultVal] is the variadic argument. *)
Definition MustValue (depth : nat) (section key : string)
    (defaultVal : list string) : option string :=
  match getValue depth cf section key with
  | None => None
  | Some (val, err) =>
      match defaultVal with
      | d :: _ =>
          if bool_decide (is_Some err) || Nat.eqb (len val) 0
          then Some d else Some val
      | [] => Some val
      end
  end.

(** [Bool], [Float64], [Int] and [Int64] differ by the conversion of
    [strconv] they call and by the zero value they return with an error of
    [getValue]. *)
Section Typed.

Context {T : Type}.
Variable zero : T.
Variable conv : string -> T * option error.

Definition typedValue (depth : nat) (section key : string)
  : option (T * option error) :=
  match getValue depth cf section key with
  | None => None
  | Some (value, Some e) => Some (zero, Some (EGet e))
  | Some (value, None) => Some (conv value)
  end.

Definition mustTyped (depth : nat) (section key : string)
    (defaultVal : list T) : option T :=
  match typedValue depth section key with
  | None => None
  | Some (val, err) =>
      match defaultVal with
      | d :: _ => if bool_decide (is_Some err) then Some d else Some val
      | [] => Some val
      end
  end.

End Typed.

Definition Bool := typedValue false ParseBool.
Definition MustBool := mustTyped false ParseBool.

End Accessors.

(** [Int], [Int64], [Float64] and their [Must] forms, over the conversion
    functions [strconv.Atoi], [strconv.ParseInt(_, 10, 64)] and
    [strconv.ParseFloat(_, 64)] of Go's library. *)
Definition Int (Atoi : string -> Z * option error) cf := typedValue cf 0%Z Atoi.
Definition MustInt (Atoi : string -> Z * option error) cf := mustTyped cf 0%Z Atoi.
Definition Int64 (ParseInt : string -> Z * option error) cf := typedValue cf 0%Z ParseInt.
Definition MustInt64 (ParseInt : string -> Z * option error) cf := mustTyped cf 0%Z ParseInt.
Definition Float64 {F : Type} (fzero : F) (ParseFloat : string -> F * option error) cf :=
  typedValue cf fzero ParseFloat.
Definition MustFloat64 {F : Type} (fzero : F) (ParseFloat : string -> F * option error) cf :=
  mustTyped cf fzero ParseFloat.

(** ** Loading files: [LoadConfigFile] and [loadFile] *)

(** What [loadFile] returns: the error of [os.Open], or the error of
    [read]. *)
Inductive loadError :=
| OpenError (fileName : string)
| ParseFailure (e : readError).

Section Load.

Variable LineBreak : string.

(** The files of the system: the bytes of the file of a given name, [None]
    when [os.Open] fails. *)
Variable openFile : string → option string.

Definition loadFile (c : ConfigFile) (fileName : string)
  : ConfigFile * option loadError :=
  match openFile fileName with
  | None => (c, Some (OpenError fileName))
  | Some content =>
      let '(c', err) := read LineBreak c content in
      (c', ParseFailure <$> err)
  end.

(** The loop [for _, name := range fileNames] of [LoadConfigFile], which
    ends at the first error. *)
Fixpoint loadFiles (c : ConfigFile) (names : list string)
  : ConfigFile * option loadError :=
  match names with
  | [] => (c, None)
  | name :: names' =>
      match loadFile c name with
      | (c', None) => loadFiles c' names'
      | (c', Some e) => (c', Some e)
      end
  end.

(** [LoadConfigFile(fileName, moreFiles...)]: the store, or [None] for
    Go's [nil], and the error. *)
Definition LoadConfigFile (fileName : string) (moreFiles : list string)
  : option ConfigFile * option loadError :=
  let fileNames := fileName :: moreFiles in
  match loadFiles (newConfigFile fileNames) fileNames with
  | (c, None) => (Some c, None)
  | (_, Some e) => (None, Some e)
  end.

End Load.

(** ** Notions used in the statements *)

(** Some byte of [s] belongs to the set [chars]. *)
Fixpoint has_any (s chars : string) : bool :=
  match s with
  | EmptyString => false
  | String ch s' => mem_byte ch chars || has_any s' chars
  end.

(** The specification's words: [value] holds a placeholder [%(name)s], with a
    name of at least one byte, none of them a closing parenthesis. *)
Definition hasPlaceholder (value : string) : Prop :=
  ∃ pre name post,
    value = pre ++ "%(" ++ name ++ ")s" ++ post ∧
    name ≠ "" ∧ mem_byte ")" name = false.

(** The name of a placeholder [vr] as the specification has it: the text
    between the leading [%(] and the trailing [)s]. *)
Definition placeholderName (vr : string) : string := slice 2 (len vr - 2) vr.

(** A sequence of [setValue] from a given store. *)
Definition setValues (c : ConfigFile) (ops : list (string * string * string)) : ConfigFile :=
  fold_left (fun c '(section, key, value) => fst (setValue c section key value)) ops c.

(** The store obtained from the empty one by a sequence of [setValue]. *)
Definition storeOf (ops : list (string * string * string)) : ConfigFile :=
  setValues (newConfigFile []) ops.

(** The ordered key list of a section ([c.keyList[section]], the nil slice
    when the section has none). *)
Definition keysOf (c : ConfigFile) (s : string) : list string :=
  default [] (keyList c !! s).

(** The key is present in the section. *)
Definition hasKey (c : ConfigFile) (s key : string) : Prop :=
  is_Some (data c !! s ≫= (.!! key)).

(** The ordered key lists agree with the data: no key twice, the keys
    listed are those present, and the empty key is not among them. *)
Definition keyListInv (c : ConfigFile) : Prop :=
  ∀ s, NoDup (keysOf c s) ∧ (∀ key, key ∈ keysOf c s ↔ hasKey c s key) ∧
       ¬ hasKey c s "".

(** The specification's words: the elements of [l] in the order of their
    first occurrence. *)
Fixpoint firstOcc (l : list string) : list string :=
  match l with
  | [] => []
  | x :: l' => x :: filter (λ y, y ≠ x) (firstOcc l')
  end.

(** The keys that a sequence of [setValue] sets in section [s]. *)
Definition keysFor (s : string) (ops : list (string * string * string)) : list string :=
  flat_map (λ '(section, key, _),
      if String.eqb (normSection section) s && negb (String.eqb key "")
      then [key] else []) ops.

(** A key list after a key is set: a key not yet listed goes to the end. *)
Definition addKey (keys : list string) (key : string) : list string :=
  if bool_decide (key ∈ keys) then keys else (keys ++ [key])%list.

(** The lines that the successive calls of [buf.ReadString] deliver: each
    with the line feed that ends it, the last one up to the end of the input.
    [cur] holds the bytes of the current line read so far. *)
Fixpoint splitLines (cur input : string) : list string :=
  match input with
  | EmptyString => [cur]
  | String ch rest =>
      if Ascii.eqb ch newline
      then (cur ++ String ch EmptyString) :: splitLines "" rest
      else splitLines (cur ++ String ch EmptyString) rest
  end.

(** [readLine] over a list of lines, up to the first error. *)
Fixpoint readLines (LineBreak : string) (st : readState) (ls : list string)
  : readState * option readError :=
  match ls with
  | [] => (st, None)
  | l :: ls' =>
      match readLine LineBreak st (TrimSpace l) with
      | inl st' => readLines LineBreak st' ls'
      | inr e => (st, Some e)
      end
  end.

(** A header line whose section name is blank. *)
Definition isBlankHeader (line : string) : Prop :=
  isHeader line = true ∧ TrimSpace (slice 1 (len line - 1) line) = "".

(** The words of the specification for the failures of a key/value line.
    The marker of a line is the one it begins with: the triple double quote,
    the double quote or the backtick. *)
Definition claimedKeyMarker (line : string) : string :=
  if HasPrefix line quote3 then quote3
  else if HasPrefix line quote1 then quote1
  else if HasPrefix line backquote then backquote
  else "".

(** The line begins with a quote marker whose terminator is not found past
    the opening marker; or an unquoted line has no delimiter; or the
    delimiter is at position 0. *)
Definition claimedParseFailure (line : string) : Prop :=
  (claimedKeyMarker line ≠ "" ∧
   Index (slice_from (len (claimedKeyMarker line)) line) (claimedKeyMarker line)
     = None) ∨
  (claimedKeyMarker line = "" ∧ has_any line "=:" = false) ∨
  (∃ ch rest, line = String ch rest ∧ mem_byte ch "=:" = true).

(** The failures as the code has them, in words of their own.  The marker of
    the key is the triple double quote on a line of six bytes or more that
    begins with it, the double quote on any other line that begins with a
    double quote, the backtick on a line that begins with a backtick, and
    there is none on any other line. *)
Definition keyMarker (line : string) : string :=
  if Nat.leb 6 (len line) && HasPrefix line quote3 then quote3
  else if HasPrefix line quote1 then quote1
  else if HasPrefix line backquote then backquote
  else "".

(** The marker of the key does not occur again past the opening marker. *)
Definition keyQuoteUnterminated (line : string) : Prop :=
  keyMarker line ≠ "" ∧
  Index (slice_from (len (keyMarker line)) line) (keyMarker line) = None.

(** The marker of the key occurs again, at [pos] past the opening marker,
    and neither [=] nor [:] follows that closing marker. *)
Definition quotedNoDelimiter (line : string) : Prop :=
  keyMarker line ≠ "" ∧
  ∃ pos,
    Index (slice_from (len (keyMarker line)) line) (keyMarker line) = Some pos ∧
    has_any (slice_from (pos + len (keyMarker line)) line) "=:" = false.

(** The key has no marker and the line holds neither [=] nor [:]. *)
Definition unquotedNoDelimiter (line : string) : Prop :=
  keyMarker line = "" ∧ has_any line "=:" = false.

(** The key has no marker and the line begins with [=] or [:]. *)
Definition delimiterAtZero (line : string) : Prop :=
  keyMarker line = "" ∧
  ∃ ch rest, line = String ch rest ∧ mem_byte ch "=:" = true.

(** The position of the delimiter: the first [=] or [:] of a line whose key
    has no marker, and the first one from the closing marker on of a line
    whose key has one. *)
Definition delimiterAt (line : string) : option nat :=
  if String.eqb (keyMarker line) "" then IndexAny line "=:"
  else
    match Index (slice_from (len (keyMarker line)) line) (keyMarker line) with
    | Some pos =>
        (λ i, i + (pos + len (keyMarker line))) <$>
          IndexAny (slice_from (pos + len (keyMarker line)) line) "=:"
    | None => None
    end.

(** The marker of a value, that is of what follows the delimiter, trimmed:
    the backtick on a value of two bytes or more that begins with it, the
    triple double quote on a value of six bytes or more that begins with it,
    and none on any other value. *)
Definition valueMarker (v : string) : string :=
  if Nat.leb 2 (len v) && HasPrefix v backquote then backquote
  else if Nat.leb 6 (len v) && HasPrefix v quote3 then quote3
  else "".

(** The value has a marker, which does not occur again past the opening
    marker. *)
Definition valueQuoteUnterminated (line : string) : Prop :=
  ∃ i,
    delimiterAt line = Some i ∧
    let v := TrimSpace (slice_from (i + 1) line) in
    valueMarker v ≠ "" ∧
    LastIndex (slice_from (len (valueMarker v)) v) (valueMarker v) = None.

(** ** Stores and inputs the properties are evaluated on *)

(** [a=%(b)s] and [b=%(a)s] in the DEFAULT section. *)
Definition circularStore : ConfigFile :=
  storeOf [("DEFAULT", "a", "%(b)s"); ("DEFAULT", "b", "%(a)s")].

(** A value that refers to itself in a section other than DEFAULT. *)
Definition selfStore : ConfigFile := storeOf [("s", "a", "%(a)s")].

(** A variable whose name ends with the letter of the placeholder syntax. *)
Definition classStore : ConfigFile :=
  storeOf [("DEFAULT", "class", "X"); ("DEFAULT", "cla", "Y");
           ("DEFAULT", "v", "%(class)s")].

(** A section and a sub-section of it. *)
Definition dottedStore : ConfigFile :=
  storeOf [("db", "host", "h"); ("db.replica", "port", "1")].

(** An empty store in which a value is set under the empty key. *)
Definition emptyKeyStore : ConfigFile :=
  fst (setValue (newConfigFile []) "app" "" "v").

(** A key set twice, the second time to a value with a placeholder. *)
Definition resetStore : ConfigFile :=
  storeOf [("app", "k", "1"); ("app", "k", "%(h)s")].

(** A key set twice with another key in between. *)
Definition orderStore : ConfigFile :=
  storeOf [("app", "b", "1"); ("app", "a", "2"); ("app", "b", "3")].

(** A key with an empty value and a key with a boolean value. *)
Definition emptyValueStore : ConfigFile :=
  storeOf [("app", "name", ""); ("app", "debug", "true")].

(** A line feed, as a string. *)
Definition LF : string := String newline EmptyString.

(** Two auto-increment keys in one section. *)
Definition autoInput : string := "[s]" ++ LF ++ "-=first" ++ LF ++ "-=second".

(** A key/value line after a header with a blank name. *)
Definition blankHeaderInput : string := "[]" ++ LF ++ "k=v".

(** ** Notions used in the further properties *)

(** A variable name that the trims of [getValue] leave as it is: no closing
    parenthesis, a first byte other than [%] and [(], a last byte other than
    [)] and [s]. *)
Definition cleanName (name : string) : bool :=
  negb (mem_byte ")" name) &&
  match name with
  | String first _ => negb (mem_byte first "%(")
  | EmptyString => false
  end &&
  match rev_string name with
  | String last _ => negb (mem_byte last ")s")
  | EmptyString => false
  end.

(** The placeholder of a variable. *)
Definition placeholder (name : string) : string := "%(" ++ name ++ ")s".

(** What an iteration of the loop of [getValue] puts in the place of a
    placeholder: [found] is what [c.getValue(DEFAULT_SECTION, name)]
    returned, [sec] is [c.data[section]]. *)
Definition resolved (found : getResult) (sec : gmap string string)
    (section name : string) : string :=
  if bool_decide (is_Some (snd found)) && negb (String.eqb section DEFAULT_SECTION)
  then match sec !! name with
       | Some v => v
       | None => fst found
       end
  else fst found.

(** A value with one placeholder, and the variable in the DEFAULT section,
    in the same section, or nowhere. *)
Definition interpolationStore : ConfigFile :=
  storeOf [("DEFAULT", "host", "127.0.0.1"); ("db", "addr", "%(host)s:3306");
           ("db", "port", "3306"); ("db", "url", "tcp://%(port)s/x");
           ("db", "dsn", "user@%(nowhere)s/x")].

(** [c'] has everything [c] has: the section list and every key list of [c]
    are prefixes of those of [c'], and the sections and keys present in [c]
    are present in [c']. *)
Definition extends (c c' : ConfigFile) : Prop :=
  sectionList c `prefix_of` sectionList c' ∧
  (∀ s, keysOf c s `prefix_of` keysOf c' s) ∧
  (∀ s, is_Some (data c !! s) → is_Some (data c' !! s)) ∧
  (∀ s key, hasKey c s key → hasKey c' s key).

(** The section list agrees with the data: no section twice, and the
    sections listed are those present. *)
Definition sectionListInv (c : ConfigFile) : Prop :=
  NoDup (sectionList c) ∧ ∀ s, s ∈ sectionList c ↔ is_Some (data c !! s).

(** The sections that a sequence of [setValue] touches. *)
Definition sectionsFor (ops : list (string * string * string)) : list string :=
  flat_map (λ '(section, key, _),
      if negb (String.eqb key "") then [normSection section] else []) ops.

(** Every comment stored starts with [#] or [;]. *)
Definition commentsInv (c : ConfigFile) : Prop :=
  (∀ s cm, sectionComments c !! s = Some cm → isComment cm = true) ∧
  (∀ s key cm, keyComments c !! s ≫= (.!! key) = Some cm → isComment cm = true).

(** A block of comment lines as [read] gathers it: the lines joined by
    [LineBreak]. *)
Definition joinComments (LineBreak : string) (lines : list string) : string :=
  fold_left (λ acc line,
      if Nat.eqb (len acc) 0 then line else acc ++ LineBreak ++ line)
    lines "".

(** A byte that is neither white space nor part of a rune of several
    bytes. *)
Definition plainByte (ch : ascii) : bool :=
  negb (asciiSpace ch) && Nat.ltb (byteN ch) 128.

(** A text that is empty or whose first and last bytes are plain: the text
    has no white space to trim. *)
Definition plainEnds (s : string) : bool :=
  match s with
  | EmptyString => true
  | String first _ =>
      plainByte first &&
      match rev_string s with
      | String last _ => plainByte last
      | EmptyString => false
      end
  end.

Definition firstByteIn (s chars : string) : bool :=
  match s with
  | String ch _ => mem_byte ch chars
  | EmptyString => false
  end.

(** A key that can be written without quotes: not empty, not [-], no white
    space at its ends, no delimiter in it, and a first byte that opens
    neither a quoted key, nor a comment, nor a header. *)
Definition plainKey (key : string) : bool :=
  negb (String.eqb key "") && negb (String.eqb key "-") &&
  plainEnds key && negb (has_any key "=:") &&
  negb (firstByteIn key (String dquote "`#;[")).

(** A value that can be written without quotes: no white space at its ends
    and a first byte that opens no quoted value. *)
Definition plainValue (value : string) : bool :=
  plainEnds value && negb (firstByteIn value (String dquote "`")).

(** * Properties *)

(** ** Basic facts on the string functions *)

Arguments substLoop : simpl never.
Arguments getValue : simpl never.

Lemma len_eqb_0 (s : string) : Nat.eqb (len s) 0 = true ↔ s = "".
Proof. destruct s; simpl; split; intros H; done. Qed.

Lemma len_eqb_0_false (s : string) : Nat.eqb (len s) 0 = false ↔ s ≠ "".
Proof. destruct s; simpl; split; intros H; done. Qed.

Lemma len_app (s t : string) : len (s ++ t) = len s + len t.
Proof.
  unfold len. induction s as [|ch s IH]; [done|].
  change (String ch s ++ t) with (String ch (s ++ t)). simpl. by rewrite IH.
Qed.

Lemma normSection_empty : normSection "" = DEFAULT_SECTION.
Proof. reflexivity. Qed.

Lemma normSection_nonempty (s : string) : s ≠ "" → normSection s = s.
Proof. intros H. unfold normSection. by destruct s. Qed.

Lemma normSection_idemp (s : string) : normSection (normSection s) = normSection s.
Proof. destruct s; reflexivity. Qed.

Lemma normSection_ne (s : string) : normSection s ≠ "".
Proof. destruct s; done. Qed.

(** ** Unfolding [getValue] and its loop *)

Lemma getValue_0 c section key : getValue 0 c section key = None.
Proof. reflexivity. Qed.

Lemma getValue_S d c section key :
  getValue (S d) c section key =
  match data c !! normSection section with
  | None => Some ("", Some (GetError ERR_SECTION_NOT_FOUND (normSection section)))
  | Some sec =>
      match sec !! key with
      | None =>
          match LastIndex (normSection section) "." with
          | Some i => getValue d c (slice_to i (normSection section)) key
          | None => Some ("", Some (GetError ERR_KEY_NOT_FOUND key))
          end
      | Some value =>
          substLoop (getValue d c DEFAULT_SECTION) sec (normSection section)
            _DEPTH_VALUES value
      end
  end.
Proof. reflexivity. Qed.

Lemma substLoop_0 f sec section value :
  substLoop f sec section 0 value = Some (value, None).
Proof. reflexivity. Qed.

Lemma substLoop_S f sec section n value :
  substLoop f sec section (S n) value =
  if Nat.eqb (len (FindString value)) 0 then Some (value, None)
  else
    match f (TrimRight (TrimLeft (FindString value) "%(") ")s") with
    | None => None
    | Some (nvalue, err) =>
        substLoop f sec section n
          (Replace value (FindString value)
             (if bool_decide (is_Some err) && negb (String.eqb section DEFAULT_SECTION)
              then match sec !! TrimRight (TrimLeft (FindString value) "%(") ")s" with
                   | Some v => v
                   | None => nvalue
                   end
              else nvalue))
    end.
Proof. reflexivity. Qed.

(** A value without placeholder leaves the loop at once. *)
Lemma substLoop_no_placeholder f sec section n value :
  FindString value = "" → substLoop f sec section n value = Some (value, None).
Proof.
  intros H. destruct n as [|n]; [reflexivity|].
  rewrite substLoop_S, H. reflexivity.
Qed.

(** When the lookup of the first placeholder does not return, neither does
    the loop. *)
Lemma substLoop_stuck f sec section n value :
  FindString value ≠ "" →
  f (TrimRight (TrimLeft (FindString value) "%(") ")s") = None →
  substLoop f sec section (S n) value = None.
Proof.
  intros Hne Hf. rewrite substLoop_S, Hf.
  apply len_eqb_0_false in Hne. by rewrite Hne.
Qed.

(** A larger bound on the nesting does not change what a call returns. *)
Lemma substLoop_mono (f g : string → option getResult) sec section n value r :
  (∀ k r', f k = Some r' → g k = Some r') →
  substLoop f sec section n value = Some r →
  substLoop g sec section n value = Some r.
Proof.
  intros Hfg. revert value. induction n as [|n IH]; intros value; [done|].
  rewrite !substLoop_S.
  destruct (Nat.eqb (len (FindString value)) 0); [done|].
  destruct (f _) as [[nvalue err]|] eqn:Hf; [|done].
  rewrite (Hfg _ _ Hf). apply IH.
Qed.

Lemma getValue_mono_S d c section key r :
  getValue d c section key = Some r → getValue (S d) c section key = Some r.
Proof.
  revert section key r. induction d as [|d IH]; intros section key r; [done|].
  rewrite (getValue_S (S d)), (getValue_S d).
  destruct (data c !! normSection section) as [sec|]; [|done].
  destruct (sec !! key) as [value|].
  - apply substLoop_mono. intros k r'. apply IH.
  - destruct (LastIndex _ _); [apply IH|done].
Qed.

Lemma getValue_mono (d d' : nat) c section key r :
  (d ≤ d')%nat → getValue d c section key = Some r → getValue d' c section key = Some r.
Proof.
  induction 1 as [|d' _ IH]; [done|].
  intros H. by apply getValue_mono_S, IH.
Qed.

(** ** C1: circular substitution *)

Lemma getValue_circular_both c sec (depth : nat) :
  data c !! DEFAULT_SECTION = Some sec →
  sec !! "a" = Some "%(b)s" → sec !! "b" = Some "%(a)s" →
  getValue depth c DEFAULT_SECTION "a" = None ∧
  getValue depth c DEFAULT_SECTION "b" = None.
Proof.
  intros Hsec Ha Hb. induction depth as [|d [IHa IHb]]; [done|].
  rewrite !getValue_S.
  change (normSection DEFAULT_SECTION) with DEFAULT_SECTION.
  rewrite Hsec, Ha, Hb. split.
  - apply (substLoop_stuck _ _ _ 199); [done|exact IHb].
  - apply (substLoop_stuck _ _ _ 199); [done|exact IHa].
Qed.

(** The cap of 200 iterations does end a cycle that goes through the
    fallback to the same section, which reads the stored value without a
    call of [getValue]: the placeholder is left as it is. *)
Lemma getValue_self_reference_capped :
  getValue 2 selfStore "s" "a" = Some ("%(a)s", None).
Proof. vm_compute. reflexivity. Qed.

(** C1 (the code departs from the claim).  With [a=%(b)s] and [b=%(a)s] in
    the DEFAULT section, the first iteration of the loop of
    [getValue("DEFAULT", "a")] calls [getValue("DEFAULT", "b")], whose first
    iteration calls [getValue("DEFAULT", "a")] again: the cap of 200 bounds
    the iterations of one activation, not the nesting of the activations.
    Whatever the bound on the nesting, the call does not return. *)
Theorem getValue_circular_never_returns c sec :
  data c !! DEFAULT_SECTION = Some sec →
  sec !! "a" = Some "%(b)s" → sec !! "b" = Some "%(a)s" →
  ∀ depth : nat, getValue depth c DEFAULT_SECTION "a" = None.
Proof.
  intros Hsec Ha Hb depth.
  by destruct (getValue_circular_both c sec depth Hsec Ha Hb).
Qed.

Lemma getValue_circular_never_returns_witness :
  getValue 1000 circularStore DEFAULT_SECTION "a" = None.
Proof.
  apply (getValue_circular_never_returns circularStore
           {["a" := "%(b)s"; "b" := "%(a)s"]}).
  - vm_compute. reflexivity.
  - vm_compute. reflexivity.
  - vm_compute. reflexivity.
Defined.

(** ** C3: one iteration of the substitution *)

(** C3 (the code departs from the claim).  The name looked up is not the
    text between [%(] and [)s]: [TrimLeft] and [TrimRight] take off every
    leading byte among [%], [(] and every trailing byte among [)], [s].
    For the placeholder [%(class)s] the name looked up is [cla], and
    [getValue("DEFAULT", "v")] returns the value of [cla], not that of
    [class]. *)
Theorem substitution_looks_up_trimmed_name :
  FindString "%(class)s" = "%(class)s" ∧
  placeholderName "%(class)s" = "class" ∧
  TrimRight (TrimLeft "%(class)s" "%(") ")s" = "cla" ∧
  (data classStore !! DEFAULT_SECTION ≫= (.!! "class")) = Some "X" ∧
  ∀ depth : nat,
    getValue (2 + depth) classStore DEFAULT_SECTION "v" = Some ("Y", None).
Proof.
  repeat split; try (vm_compute; reflexivity).
Qed.

(** ** Slices, [IndexAny] and [LastIndex] *)

Lemma app_String (ch : ascii) (s t : string) : String ch s ++ t = String ch (s ++ t).
Proof. reflexivity. Qed.

Lemma app_empty_l (t : string) : "" ++ t = t.
Proof. reflexivity. Qed.

Lemma app_empty_r (s : string) : s ++ "" = s.
Proof. induction s as [|ch s IH]; [done|]. by rewrite app_String, IH. Qed.

Lemma app_assoc_s (s t u : string) : (s ++ t) ++ u = s ++ t ++ u.
Proof. induction s as [|ch s IH]; [done|]. by rewrite !app_String, IH. Qed.

Lemma slice_to_app_len (pre post : string) : slice_to (len pre) (pre ++ post) = pre.
Proof.
  induction pre as [|ch pre IH]; [by destruct post|].
  rewrite app_String. simpl. by rewrite IH.
Qed.

Lemma slice_from_app_len (pre post : string) : slice_from (len pre) (pre ++ post) = post.
Proof. induction pre as [|ch pre IH]; [done|]. rewrite app_String. exact IH. Qed.

Lemma slice_to_from (i : nat) (s : string) : slice_to i s ++ slice_from i s = s.
Proof.
  revert s. induction i as [|i IH]; intros [|ch s]; simpl; try done.
  by rewrite app_String, IH.
Qed.

Lemma len_slice_to (i : nat) (s : string) : (i ≤ len s)%nat → len (slice_to i s) = i.
Proof.
  revert s. induction i as [|i IH]; intros [|ch s]; simpl; try done; [lia|].
  intros H. unfold len in *. rewrite IH; [done|]. lia.
Qed.

Lemma mem_byte_app (ch : ascii) (s t : string) :
  mem_byte ch (s ++ t) = mem_byte ch s || mem_byte ch t.
Proof.
  induction s as [|x s IH]; [done|]. rewrite app_String. simpl.
  rewrite IH. by rewrite orb_assoc.
Qed.

Lemma HasPrefix_byte (ch x : ascii) (s : string) :
  HasPrefix (String x s) (String ch "") = Ascii.eqb ch x.
Proof.
  unfold HasPrefix. simpl. destruct (ascii_dec ch x) as [->|Hne].
  - rewrite Ascii.eqb_refl. by destruct s.
  - symmetry. by apply Ascii.eqb_neq.
Qed.

(** [LastIndex(s, ".")] is -1 exactly when [s] holds no dot. *)
Lemma LastIndex_byte_None (ch : ascii) (s : string) :
  LastIndex s (String ch "") = None ↔ mem_byte ch s = false.
Proof.
  induction s as [|x s IH].
  - done.
  - cbn [LastIndex mem_byte]. rewrite HasPrefix_byte.
    destruct (LastIndex s (String ch "")) as [i|].
    + split; [done|]. intros H. apply orb_false_elim in H as [_ H].
      apply IH in H. done.
    + destruct IH as [IH _]. rewrite (IH eq_refl), orb_false_r.
      by destruct (Ascii.eqb ch x).
Qed.

(** [LastIndex(s, ".")] is the position of the dot after which no dot occurs. *)
Lemma LastIndex_byte_app (ch : ascii) (pre post : string) :
  mem_byte ch post = false →
  LastIndex (pre ++ String ch post) (String ch "") = Some (len pre).
Proof.
  intros Hpost. induction pre as [|x pre IH].
  - rewrite app_empty_l. cbn [LastIndex len String.length].
    apply LastIndex_byte_None in Hpost. rewrite Hpost, HasPrefix_byte.
    by rewrite Ascii.eqb_refl.
  - rewrite app_String. cbn [LastIndex]. rewrite IH. done.
Qed.

(** A string that holds the byte splits at its last occurrence. *)
Lemma mem_byte_split_last (ch : ascii) (s : string) :
  mem_byte ch s = true →
  ∃ pre post, s = pre ++ String ch post ∧ mem_byte ch post = false.
Proof.
  induction s as [|x s IH]; [done|]. cbn [mem_byte]. intros H.
  destruct (mem_byte ch s) eqn:Hs.
  - destruct (IH eq_refl) as (pre & post & -> & Hpost).
    by exists (String x pre), post.
  - rewrite orb_false_r in H. apply Ascii.eqb_eq in H as ->.
    by exists "", s.
Qed.

(** [IndexAny] is -1 exactly when no byte of [s] is in the set. *)
Lemma IndexAny_None (s chars : string) :
  IndexAny s chars = None ↔ has_any s chars = false.
Proof.
  induction s as [|x s IH]; [done|]. cbn [IndexAny has_any].
  destruct (mem_byte x chars); [done|]. simpl.
  destruct (IndexAny s chars); simpl; [|tauto].
  split; [done|]. intros H. apply IH in H. done.
Qed.

Lemma IndexAny_Some (s chars : string) (i : nat) :
  IndexAny s chars = Some i ↔
  ∃ x post, s = slice_to i s ++ String x post ∧ len (slice_to i s) = i ∧
            has_any (slice_to i s) chars = false ∧ mem_byte x chars = true.
Proof.
  revert i. induction s as [|x s IH]; intros i.
  - split; [done|]. intros (y & post & H & _). by destruct i.
  - cbn [IndexAny]. destruct (mem_byte x chars) eqn:Hx.
    + split.
      * intros [= <-]. by exists x, s.
      * intros (y & post & H & Hlen & Hno & Hy). destruct i as [|i]; [done|].
        simpl in Hno. by rewrite Hx in Hno.
    + destruct i as [|i].
      * split; [by destruct (IndexAny s chars)|].
        intros (y & post & H & _ & _ & Hy). simpl in H.
        injection H as -> ->. congruence.
      * split.
        -- destruct (IndexAny s chars) as [j|] eqn:Hj; [|done].
           intros [= ->]. destruct (IH i) as [IH1 _].
           destruct (IH1 eq_refl) as (y & post & H1 & H2 & H3 & H4).
           exists y, post. simpl. rewrite app_String, <- H1, Hx.
           unfold len in *. simpl. by rewrite H2, H3.
        -- intros (y & post & H & Hlen & Hno & Hy). simpl in H, Hlen, Hno.
           rewrite app_String in H. injection H as H.
           rewrite Hx in Hno. simpl in Hno.
           assert (IndexAny s chars = Some i) as ->; [|done].
           apply IH. exists y, post. unfold len in *. simpl in Hlen.
           repeat split; [done|lia|done|done].
Qed.

(** ** Where the name looked up is the name of the placeholder *)

Lemma list_ascii_app (s t : string) :
  list_ascii_of_string (s ++ t) =
  (list_ascii_of_string s ++ list_ascii_of_string t)%list.
Proof.
  induction s as [|ch s IH]; [done|]. rewrite app_String. simpl. by rewrite IH.
Qed.

Lemma string_of_list_app (l k : list ascii) :
  string_of_list_ascii (l ++ k) = string_of_list_ascii l ++ string_of_list_ascii k.
Proof.
  induction l as [|ch l IH]; [done|]. simpl. by rewrite IH, app_String.
Qed.

Lemma rev_string_app (s t : string) :
  rev_string (s ++ t) = rev_string t ++ rev_string s.
Proof.
  unfold rev_string. by rewrite list_ascii_app, rev_app_distr, string_of_list_app.
Qed.

Lemma rev_string_involutive (s : string) : rev_string (rev_string s) = s.
Proof.
  unfold rev_string.
  by rewrite list_ascii_of_string_of_list_ascii, rev_involutive,
    string_of_list_ascii_of_string.
Qed.

(** [TrimLeft] stops at the first byte outside the cut set. *)
Lemma TrimLeft_stop (ch : ascii) (s cutset : string) :
  mem_byte ch cutset = false → TrimLeft (String ch s) cutset = String ch s.
Proof. intros H. simpl. by rewrite H. Qed.

(** [TrimRight] takes off a tail made of bytes of the cut set and stops at
    the last byte outside it. *)
Lemma TrimRight_stop (ch : ascii) (s cutset : string) :
  mem_byte ch cutset = false →
  TrimRight (s ++ String ch "") cutset = s ++ String ch "".
Proof.
  intros H. unfold TrimRight. rewrite rev_string_app.
  change (rev_string (String ch "")) with (String ch "").
  rewrite app_String, app_empty_l, TrimLeft_stop by done.
  rewrite <- (rev_string_involutive (s ++ String ch "")).
  by rewrite rev_string_app.
Qed.

Lemma TrimRight_tail (s cutset : string) (a b : ascii) :
  mem_byte a cutset = true → mem_byte b cutset = true →
  TrimRight (s ++ String a (String b "")) cutset = TrimRight s cutset.
Proof.
  intros Ha Hb. unfold TrimRight. rewrite rev_string_app.
  change (rev_string (String a (String b ""))) with (String b (String a "")).
  rewrite !app_String, app_empty_l. simpl. by rewrite Ha, Hb.
Qed.

Lemma TrimLeft_skip (ch : ascii) (s cutset : string) :
  mem_byte ch cutset = true → TrimLeft (String ch s) cutset = TrimLeft s cutset.
Proof. intros H. simpl. by rewrite H. Qed.

(** For a name that neither starts with [%] or [(] nor ends with [s], the
    name that [getValue] looks up is the text between [%(] and [)s]. *)
Lemma lookup_name_agrees (name rest pre : string) (first last : ascii) :
  name = String first rest → name = pre ++ String last "" →
  mem_byte first "%(" = false → mem_byte last ")s" = false →
  TrimRight (TrimLeft ("%(" ++ name ++ ")s") "%(") ")s" = name.
Proof.
  intros Hfirst Hlast Hf Hl.
  change ("%(" ++ name ++ ")s") with (String "%" (String "(" (name ++ ")s"))).
  rewrite !TrimLeft_skip by done.
  rewrite Hfirst at 1. rewrite app_String, TrimLeft_stop by done.
  rewrite <- app_String, <- Hfirst.
  rewrite (TrimRight_tail _ ")s" ")" "s") by done.
  rewrite Hlast. by apply TrimRight_stop.
Qed.

(** ** C4: the errors of a lookup and the fallback to the parent section *)

(** C4.  With the section name normalised (blank stands for DEFAULT):
    a section absent from the store gives [SectionNotFound]; a key absent
    from an existing section gives [KeyNotFound] when the section name holds
    no dot, and otherwise the call returns what [getValue] returns for the
    name cut at its last dot. *)
Theorem getValue_lookup_errors c section key (depth : nat) :
  (data c !! normSection section = None →
   getValue (S depth) c section key =
   Some ("", Some (GetError ERR_SECTION_NOT_FOUND (normSection section)))) ∧
  (∀ sec, data c !! normSection section = Some sec → sec !! key = None →
     (mem_byte "." (normSection section) = false →
      getValue (S depth) c section key =
      Some ("", Some (GetError ERR_KEY_NOT_FOUND key))) ∧
     (∀ parent child,
        normSection section = parent ++ "." ++ child →
        mem_byte "." child = false →
        getValue (S depth) c section key = getValue depth c parent key)).
Proof.
  split.
  - intros Hsec. by rewrite getValue_S, Hsec.
  - intros sec Hsec Hkey. split.
    + intros Hdot. rewrite getValue_S, Hsec, Hkey.
      apply (LastIndex_byte_None ".") in Hdot. by rewrite Hdot.
    + intros parent child Heq Hchild. rewrite getValue_S, Hsec, Hkey, Heq.
      change (parent ++ "." ++ child) with (parent ++ String "."%char child).
      rewrite (LastIndex_byte_app "." parent child Hchild).
      by rewrite slice_to_app_len.
Qed.

Lemma getValue_lookup_errors_witness :
  getValue 1 dottedStore "nosuch" "host" =
    Some ("", Some (GetError ERR_SECTION_NOT_FOUND "nosuch")) ∧
  getValue 1 dottedStore "db" "port" =
    Some ("", Some (GetError ERR_KEY_NOT_FOUND "port")) ∧
  getValue 2 dottedStore "db.replica" "host" = getValue 1 dottedStore "db" "host".
Proof.
  split; [|split].
  - apply (proj1 (getValue_lookup_errors dottedStore "nosuch" "host" 0)).
    vm_compute. reflexivity.
  - apply (proj2 (getValue_lookup_errors dottedStore "db" "port" 0)
             {["host" := "h"]}).
    + vm_compute. reflexivity.
    + vm_compute. reflexivity.
    + vm_compute. reflexivity.
  - apply (proj2 (getValue_lookup_errors dottedStore "db.replica" "host" 1)
             {["port" := "1"]})
      with (child := "replica").
    + vm_compute. reflexivity.
    + vm_compute. reflexivity.
    + vm_compute. reflexivity.
    + vm_compute. reflexivity.
Defined.

(** ** [FindString] finds a placeholder exactly when there is one *)

Lemma has_any_byte (ch : ascii) (s : string) :
  has_any s (String ch "") = mem_byte ch s.
Proof.
  induction s as [|x s IH]; [done|]. simpl. rewrite IH, orb_false_r.
  by rewrite (Ascii.eqb_sym x ch).
Qed.

Lemma mem_byte_single (x ch : ascii) : mem_byte x (String ch "") = true → x = ch.
Proof. simpl. rewrite orb_false_r. apply Ascii.eqb_eq. Qed.

Lemma byte_at_app_len (pre t : string) (k : nat) :
  byte_at (len pre + k) (pre ++ t) = byte_at k t.
Proof. induction pre as [|ch pre IH]; [done|]. rewrite app_String. exact IH. Qed.

Lemma match_here_sound (s : string) (n : nat) :
  match_here s = Some n →
  ∃ name post,
    s = "%(" ++ name ++ ")s" ++ post ∧ name ≠ "" ∧ mem_byte ")" name = false ∧
    slice_to n s = "%(" ++ name ++ ")s".
Proof.
  unfold match_here.
  destruct s as [|c1 [|c2 rest]]; try done.
  - by repeat case_match.
  - intros H. repeat case_match; try done; subst.
    injection H as <-.
    match goal with H : close_paren _ = Some (S ?k) |- _ =>
      rename H into Hclose; rename k into m end.
    match goal with H : byte_at _ _ = Some _ |- _ => rename H into Hs end.
    apply IndexAny_Some in Hclose as (x & post & Hrest & Hlen & Hno & Hx).
    apply mem_byte_single in Hx as ->. rewrite has_any_byte in Hno.
    set (name := slice_to (S m) rest) in *.
    rewrite Hrest in Hs. rewrite <- Hlen in Hs at 1.
    replace (S (len name)) with (len name + 1)%nat in Hs by lia.
    rewrite byte_at_app_len in Hs. destruct post as [|y post]; [done|].
    simpl in Hs. injection Hs as ->.
    exists name, post. split; [|split; [|split]].
    + change ("%(" ++ name ++ ")s" ++ post)
        with (String "%" (String "(" (name ++ String ")" (String "s" post)))).
      by rewrite <- Hrest.
    + intros Hname. rewrite Hname in Hlen. done.
    + done.
    + replace (S (m + 4)) with (S (S (S m + 2))) by lia.
      cbn [slice_to]. rewrite Hrest at 1.
      change ("%(" ++ name ++ ")s")
        with (String "%" (String "(" (name ++ ")s"))).
      do 2 f_equal. rewrite <- Hlen.
      change (String ")" (String "s" post)) with (")s" ++ post).
      rewrite <- app_assoc_s.
      replace (len name + 2)%nat with (len (name ++ ")s")).
      * apply slice_to_app_len.
      * rewrite len_app. done.
Qed.

Lemma match_here_complete (name post : string) :
  name ≠ "" → mem_byte ")" name = false →
  match_here ("%(" ++ name ++ ")s" ++ post) = Some (len name + 4)%nat.
Proof.
  intros Hne Hno.
  change ("%(" ++ name ++ ")s" ++ post)
    with (String "%" (String "(" (name ++ String ")" (String "s" post)))).
  unfold match_here, close_paren.
  assert (IndexAny (name ++ String ")" (String "s" post)) ")" = Some (len name))
    as ->.
  { apply IndexAny_Some. exists ")"%char, (String "s" post).
    rewrite slice_to_app_len, has_any_byte. done. }
  destruct name as [|ch name]; [done|].
  change (len (String ch name)) with (S (len name)). cbv iota beta.
  replace (S (S (len name))) with (len (String ch name) + 1)%nat
    by (unfold len; simpl; lia).
  rewrite byte_at_app_len. simpl. done.
Qed.

Lemma match_here_nonempty (s : string) (n : nat) :
  match_here s = Some n → slice_to n s ≠ "".
Proof.
  intros H. apply match_here_sound in H as (name & post & _ & _ & _ & ->). done.
Qed.

Lemma FindString_empty_iff (value : string) :
  FindString value = "" ↔ ¬ hasPlaceholder value.
Proof.
  split.
  - intros Hfind (pre & name & post & -> & Hne & Hno).
    induction pre as [|ch pre IH].
    + rewrite app_empty_l in Hfind.
      pose proof (match_here_complete name post Hne Hno) as Hm.
      destruct name as [|c name]; [done|]. simpl in Hfind, Hm.
      rewrite Hm in Hfind. done.
    + rewrite app_String in Hfind. cbn [FindString] in Hfind.
      destruct (match_here _) as [n|] eqn:Hm.
      * by apply match_here_nonempty in Hm.
      * by apply IH.
  - induction value as [|ch value IH]; intros Hno; [done|].
    cbn [FindString]. destruct (match_here _) as [n|] eqn:Hm.
    + exfalso. apply Hno.
      apply match_here_sound in Hm as (name & post & Hs & Hne & Hn & _).
      exists "", name, post. by rewrite app_empty_l.
    + apply IH. intros (pre & name & post & -> & Hne & Hn).
      apply Hno. by exists (String ch pre), name, post.
Qed.

(** ** The effect of [setValue] *)

Lemma setValue_empty_key c section value :
  setValue c section "" value = (c, false).
Proof. reflexivity. Qed.

Section SetValue.

Variables (c : ConfigFile) (section key value : string).
Hypothesis Hkey : key ≠ "".

Let s := normSection section.
Let c' := fst (setValue c section key value).

Lemma setValue_data :
  data c' = <[s := <[key := value]> (default ∅ (data c !! s))]> (data c).
Proof.
  subst c' s. unfold setValue.
  apply len_eqb_0_false in Hkey. rewrite Hkey.
  destruct (data c !! normSection section) as [sec|] eqn:Hsec; simpl.
  - rewrite Hsec. simpl. by case_bool_decide.
  - rewrite lookup_insert_eq. simpl. rewrite insert_insert_eq.
    by case_bool_decide.
Qed.

Lemma setValue_sectionList :
  sectionList c' =
  match data c !! s with
  | Some _ => sectionList c
  | None => (sectionList c ++ [s])%list
  end.
Proof.
  subst c' s. unfold setValue.
  apply len_eqb_0_false in Hkey. rewrite Hkey.
  destruct (data c !! normSection section) as [sec|] eqn:Hsec; simpl.
  - rewrite Hsec. simpl. by case_bool_decide.
  - rewrite lookup_insert_eq. simpl. by case_bool_decide.
Qed.

Lemma setValue_keyList :
  keyList c' =
  match data c !! s ≫= (.!! key) with
  | Some _ => keyList c
  | None => <[s := (default [] (keyList c !! s) ++ [key])%list]> (keyList c)
  end.
Proof.
  subst c' s. unfold setValue.
  apply len_eqb_0_false in Hkey. rewrite Hkey.
  destruct (data c !! normSection section) as [sec|] eqn:Hsec; simpl.
  - rewrite Hsec. simpl. case_bool_decide as Hk.
    + destruct Hk as [v ->]. done.
    + destruct (sec !! key) eqn:E; [|done]. exfalso. apply Hk. by eexists.
  - rewrite lookup_insert_eq. simpl. case_bool_decide as Hk; [|done].
    destruct Hk as [v Hv]. by rewrite lookup_empty in Hv.
Qed.

Lemma setValue_snd :
  snd (setValue c section key value) =
  bool_decide (data c !! s ≫= (.!! key) = None).
Proof.
  subst c' s. unfold setValue.
  apply len_eqb_0_false in Hkey. rewrite Hkey.
  destruct (data c !! normSection section) as [sec|] eqn:Hsec; simpl.
  - rewrite Hsec. simpl. case_bool_decide as Hk.
    + destruct Hk as [v ->]. done.
    + destruct (sec !! key) eqn:E; [|done]. exfalso. apply Hk. by eexists.
  - rewrite lookup_insert_eq. simpl. case_bool_decide as Hk; [|done].
    destruct Hk as [v Hv]. by rewrite lookup_empty in Hv.
Qed.

Lemma setValue_lookup :
  data c' !! s ≫= (.!! key) = Some value.
Proof. rewrite setValue_data, lookup_insert_eq. simpl. apply lookup_insert_eq. Qed.

Lemma setValue_lookup_other_key (key' : string) :
  key' ≠ key → data c' !! s ≫= (.!! key') = data c !! s ≫= (.!! key').
Proof.
  intros Hne. rewrite setValue_data, lookup_insert_eq. simpl.
  rewrite lookup_insert_ne by done. by destruct (data c !! s).
Qed.

Lemma setValue_lookup_other_section (s' : string) :
  s' ≠ s → data c' !! s' = data c !! s'.
Proof. intros Hne. rewrite setValue_data. by rewrite lookup_insert_ne. Qed.

(** Reading back what was set, when the value holds no placeholder. *)
Lemma setValue_getValue (depth : nat) :
  ¬ hasPlaceholder value →
  getValue (S depth) c' section key = Some (value, None).
Proof.
  intros Hno. rewrite getValue_S. fold s.
  rewrite setValue_data, lookup_insert_eq, lookup_insert_eq.
  apply substLoop_no_placeholder. by apply FindString_empty_iff.
Qed.

End SetValue.

(** The result of a call that returns does not depend on the bound. *)
Lemma getValue_det (d1 d2 : nat) c section key r1 r2 :
  getValue d1 c section key = Some r1 →
  getValue d2 c section key = Some r2 → r1 = r2.
Proof.
  intros H1 H2.
  apply (getValue_mono _ (d1 `max` d2)) in H1; [|lia].
  apply (getValue_mono _ (d1 `max` d2)) in H2; [|lia].
  congruence.
Qed.

(** ** C5: a value that was set is read back *)

(** C5, as stated, fails for the empty key: [setValue] refuses it and stores
    nothing, so the value [v] (which holds no placeholder) is not read back,
    whatever the bound on the nesting. *)
Lemma setValue_getValue_empty_key :
  ¬ hasPlaceholder "v" ∧
  getValue 1 emptyKeyStore "app" "" =
    Some ("", Some (GetError ERR_SECTION_NOT_FOUND "app")) ∧
  ¬ ∃ depth : nat, getValue depth emptyKeyStore "app" "" = Some ("v", None).
Proof.
  split; [|split].
  - by apply FindString_empty_iff.
  - reflexivity.
  - intros [depth H].
    assert (getValue 1 emptyKeyStore "app" "" =
            Some ("", Some (GetError ERR_SECTION_NOT_FOUND "app"))) as H1
      by reflexivity.
    pose proof (getValue_det _ _ _ _ _ _ _ H H1). done.
Qed.

(** C5 (amended).  For a non-empty key and a value without placeholder,
    [getValue] after [setValue] returns the value that was set and no
    error. *)
Theorem setValue_then_getValue c section key value (depth : nat) :
  key ≠ "" → ¬ hasPlaceholder value →
  getValue (S depth) (fst (setValue c section key value)) section key =
  Some (value, None).
Proof.
  intros Hkey Hno. rewrite getValue_S.
  rewrite setValue_data by done.
  rewrite lookup_insert_eq, lookup_insert_eq.
  apply substLoop_no_placeholder.
  by apply FindString_empty_iff.
Qed.

Lemma setValue_then_getValue_witness :
  getValue 1 (fst (setValue (newConfigFile []) "app" "name" "123")) "app" "name" =
  Some ("123", None).
Proof.
  apply (setValue_then_getValue (newConfigFile []) "app" "name" "123" 0).
  - discriminate.
  - apply FindString_empty_iff. vm_compute. reflexivity.
Defined.

(** ** C6: what [setValue] does and returns *)

(** C6, as stated, fails when the second value holds a placeholder: the
    second [setValue] returns false, and [getValue] then returns the value
    with the placeholder substituted (here by the empty string), not the
    value that was set. *)
Lemma setValue_twice_placeholder :
  snd (setValue (storeOf [("app", "k", "1")]) "app" "k" "%(h)s") = false ∧
  getValue 2 resetStore "app" "k" = Some ("", None) ∧
  ¬ ∃ depth : nat, getValue depth resetStore "app" "k" = Some ("%(h)s", None).
Proof.
  split; [|split].
  - vm_compute. reflexivity.
  - vm_compute. reflexivity.
  - intros [depth H].
    assert (getValue 2 resetStore "app" "k" = Some ("", None)) as H1
      by (vm_compute; reflexivity).
    pose proof (getValue_det _ _ _ _ _ _ _ H H1). done.
Qed.

(** C6 (amended).  [setValue] with an empty key returns false and leaves
    the store as it is.  With a non-empty key it appends the section to the
    section list if the section is absent, stores the value under the key
    (the other keys and sections keep their values), returns true exactly
    when the key was absent and false when a value was overwritten; a
    [getValue] that follows returns the value that was set when that value
    holds no placeholder. *)
Theorem setValue_spec c section key value :
  (key = "" → setValue c section key value = (c, false)) ∧
  (key ≠ "" →
   let s := normSection section in
   let c' := fst (setValue c section key value) in
   sectionList c' =
     match data c !! s with
     | Some _ => sectionList c
     | None => (sectionList c ++ [s])%list
     end ∧
   data c' !! s ≫= (.!! key) = Some value ∧
   (∀ key', key' ≠ key → data c' !! s ≫= (.!! key') = data c !! s ≫= (.!! key')) ∧
   (∀ s', s' ≠ s → data c' !! s' = data c !! s') ∧
   (snd (setValue c section key value) = true ↔ data c !! s ≫= (.!! key) = None) ∧
   (snd (setValue c section key value) = false ↔ is_Some (data c !! s ≫= (.!! key))) ∧
   (¬ hasPlaceholder value →
    ∀ depth : nat, getValue (S depth) c' section key = Some (value, None))).
Proof.
  split.
  - intros ->. apply setValue_empty_key.
  - intros Hkey s c'. subst s c'.
    split; [by apply setValue_sectionList|].
    split; [by apply setValue_lookup|].
    split; [by apply setValue_lookup_other_key|].
    split; [by apply setValue_lookup_other_section|].
    rewrite setValue_snd by done.
    split; [|split].
    + by rewrite bool_decide_eq_true.
    + rewrite bool_decide_eq_false. rewrite <- not_eq_None_Some. done.
    + intros Hno depth. by apply setValue_getValue.
Qed.

Lemma setValue_spec_witness :
  setValue (newConfigFile []) "app" "" "v" = (newConfigFile [], false) ∧
  sectionList (fst (setValue (newConfigFile []) "" "k" "v")) = ["DEFAULT"] ∧
  snd (setValue (newConfigFile []) "" "k" "v") = true ∧
  getValue 1 (fst (setValue (fst (setValue (newConfigFile []) "app" "k" "1"))
                     "app" "k" "2")) "app" "k" = Some ("2", None).
Proof.
  split; [|split; [|split]].
  - apply (proj1 (setValue_spec (newConfigFile []) "app" "" "v")). reflexivity.
  - apply (proj2 (setValue_spec (newConfigFile []) "" "k" "v")). discriminate.
  - apply (proj2 (setValue_spec (newConfigFile []) "" "k" "v")).
    + discriminate.
    + vm_compute. reflexivity.
  - apply (proj2 (setValue_spec (fst (setValue (newConfigFile []) "app" "k" "1"))
                    "app" "k" "2")).
    + discriminate.
    + apply FindString_empty_iff. vm_compute. reflexivity.
Defined.

(** ** C9: the ordered key list *)

Lemma fold_addKey_firstOcc (l acc : list string) :
  fold_left addKey l acc = (acc ++ filter (λ y, y ∉ acc) (firstOcc l))%list.
Proof.
  revert acc. induction l as [|x l IH]; intros acc; simpl.
  - by rewrite app_nil_r.
  - rewrite IH. unfold addKey. rewrite filter_cons. case_bool_decide as Hx.
    + rewrite decide_False by tauto. f_equal.
      rewrite list_filter_filter. apply list_filter_iff.
      intros y. split; [|tauto]. intros Hy. split; [done|]. congruence.
    + rewrite decide_True by done. rewrite <- app_assoc. simpl. do 2 f_equal.
      rewrite list_filter_filter. apply list_filter_iff.
      intros y. rewrite elem_of_app, list_elem_of_singleton. tauto.
Qed.

Lemma fold_addKey_nil (l : list string) : fold_left addKey l [] = firstOcc l.
Proof.
  rewrite fold_addKey_firstOcc. simpl.
  induction (firstOcc l) as [|y k IH]; [done|].
  rewrite filter_cons_True by apply not_elem_of_nil. by rewrite IH.
Qed.

Lemma keyListInv_new names : keyListInv (newConfigFile names).
Proof.
  intros s. unfold keysOf, hasKey. simpl. rewrite !lookup_empty. simpl.
  split; [|split].
  - constructor.
  - intros key. split; [by intros ?%elem_of_nil|by intros [? ?]].
  - by intros [? ?].
Qed.

Section KeyList.

Variables (c : ConfigFile) (section key value : string).
Hypothesis Hkey : key ≠ "".

Let s := normSection section.
Let c' := fst (setValue c section key value).

(** Setting a key that is present leaves every key list as it is. *)
Lemma setValue_keyList_present :
  hasKey c s key → keyList c' = keyList c.
Proof.
  intros [v Hv]. subst c' s. rewrite setValue_keyList by done. by rewrite Hv.
Qed.

(** Setting a key that is absent appends it to the list of its section. *)
Lemma setValue_keysOf_absent :
  ¬ hasKey c s key → keysOf c' s = (keysOf c s ++ [key])%list.
Proof.
  intros Hno. subst c' s. unfold keysOf. rewrite setValue_keyList by done.
  destruct (data c !! normSection section ≫= (.!! key)) eqn:E.
  - exfalso. apply Hno. unfold hasKey. rewrite E. by eexists.
  - by rewrite lookup_insert_eq.
Qed.

Lemma setValue_keysOf_other (s' : string) :
  s' ≠ s → keysOf c' s' = keysOf c s'.
Proof.
  intros Hne. subst c' s. unfold keysOf. rewrite setValue_keyList by done.
  destruct (data c !! normSection section ≫= (.!! key)); [done|].
  by rewrite lookup_insert_ne.
Qed.

Lemma setValue_hasKey (s' key' : string) :
  hasKey c' s' key' ↔ (s' = s ∧ key' = key) ∨ hasKey c s' key'.
Proof.
  subst c' s. unfold hasKey. rewrite setValue_data by done.
  destruct (decide (s' = normSection section)) as [->|Hs].
  - rewrite lookup_insert_eq. simpl.
    destruct (decide (key' = key)) as [->|Hk].
    + rewrite lookup_insert_eq. split; [by left|by eexists].
    + rewrite lookup_insert_ne by done.
      destruct (data c !! normSection section) as [sec|]; simpl.
      * split; [by right|]. by intros [[_ ?]|?].
      * rewrite lookup_empty. split; [by intros [? ?]|].
        intros [[_ ?]|[? ?]]; done.
  - rewrite lookup_insert_ne by done. split; [by right|].
    by intros [[? _]|?].
Qed.

Lemma setValue_keyListInv : keyListInv c → keyListInv c'.
Proof.
  intros Hinv s'. destruct (Hinv s') as (Hnd & Hmem & Hempty).
  assert (¬ hasKey c' s' "") as Hempty'.
  { rewrite setValue_hasKey. intros [[_ ?]|?]; done. }
  destruct (decide (s' = s)) as [->|Hs].
  - destruct (decide (hasKey c s key)) as [Hin|Hout].
    + unfold keysOf. rewrite setValue_keyList_present by done.
      split; [done|]. split; [|done]. intros key'. rewrite setValue_hasKey.
      fold (keysOf c s). rewrite Hmem. split; [tauto|].
      intros [[_ ->]|H]; done.
    + rewrite setValue_keysOf_absent by done. split; [|split; [|done]].
      * apply NoDup_app. split; [done|]. split; [|apply NoDup_singleton].
        intros x Hx ->%list_elem_of_singleton. apply Hout. by apply Hmem.
      * intros key'. rewrite setValue_hasKey, elem_of_app, Hmem.
        rewrite list_elem_of_singleton. tauto.
  - rewrite setValue_keysOf_other by done. split; [done|]. split; [|done].
    intros key'. rewrite setValue_hasKey, Hmem. tauto.
Qed.

End KeyList.

Lemma setValue_preserves_keyListInv c section key value :
  keyListInv c → keyListInv (fst (setValue c section key value)).
Proof.
  destruct (decide (key = "")) as [->|Hkey]; [done|].
  by apply setValue_keyListInv.
Qed.

Lemma setValues_keyListInv c ops : keyListInv c → keyListInv (setValues c ops).
Proof.
  revert c. induction ops as [|[[section key] value] ops IH]; intros c Hinv; [done|].
  apply IH. by apply setValue_preserves_keyListInv.
Qed.

Lemma keysOf_setValue c section key value (s : string) :
  keyListInv c →
  keysOf (fst (setValue c section key value)) s =
  if String.eqb (normSection section) s && negb (String.eqb key "")
  then addKey (keysOf c s) key else keysOf c s.
Proof.
  intros Hinv. destruct (String.eqb_spec key "") as [->|Hkey].
  { by rewrite andb_false_r. }
  rewrite andb_true_r. destruct (String.eqb_spec (normSection section) s) as [<-|Hs].
  - unfold addKey. destruct (Hinv (normSection section)) as (_ & Hmem & _).
    case_bool_decide as Hin.
    + apply Hmem in Hin. unfold keysOf.
      by rewrite setValue_keyList_present.
    + apply setValue_keysOf_absent; [done|]. by rewrite <- Hmem.
  - by apply setValue_keysOf_other.
Qed.

Lemma keysOf_setValues c ops (s : string) :
  keyListInv c →
  keysOf (setValues c ops) s = fold_left addKey (keysFor s ops) (keysOf c s).
Proof.
  revert c. induction ops as [|[[section key] value] ops IH]; intros c Hinv; [done|].
  cbn [setValues fold_left]. fold (setValues (fst (setValue c section key value)) ops).
  rewrite IH by by apply setValue_preserves_keyListInv.
  rewrite keysOf_setValue by done.
  unfold keysFor. cbn [flat_map]. fold (keysFor s ops).
  destruct (_ && _); simpl; done.
Qed.

(** ** C10: [MustValue] and the typed [Must] accessors *)

(** C10.  With a default supplied, [MustValue] returns it when the lookup
    returns an error and also when the lookup returns the empty string, and
    the resolved value otherwise.  [MustBool], and every accessor built the
    same way over a conversion of [strconv] ([MustInt], [MustInt64],
    [MustFloat64]), returns the default exactly when the typed getter
    returned an error. *)
Theorem MustValue_default_on_empty cf section key (depth : nat) val err d ds :
  getValue depth cf section key = Some (val, err) →
  MustValue cf depth section key (d :: ds) =
    Some (if bool_decide (is_Some err ∨ val = "") then d else val) ∧
  (∀ b e (db : bool) dbs,
     Bool cf depth section key = Some (b, e) →
     MustBool cf depth section key (db :: dbs) =
       Some (match e with Some _ => db | None => b end)) ∧
  (∀ (T : Type) (zero : T) conv v e (dT : T) dTs,
     typedValue cf zero conv depth section key = Some (v, e) →
     mustTyped cf zero conv depth section key (dT :: dTs) =
       Some (match e with Some _ => dT | None => v end)).
Proof.
  intros Hget. split; [|split].
  - unfold MustValue. rewrite Hget.
    assert (bool_decide (is_Some err) || Nat.eqb (len val) 0 =
            bool_decide (is_Some err ∨ val = "")) as ->; [|by case_bool_decide].
    destruct err as [e|], val as [|ch val]; reflexivity.
  - intros b e db dbs Hb. unfold MustBool, mustTyped.
    unfold Bool in Hb. rewrite Hb. by destruct e.
  - intros T zero conv v e dT dTs Hv. unfold mustTyped. rewrite Hv.
    by destruct e.
Qed.

Lemma MustValue_default_on_empty_witness :
  MustValue emptyValueStore 1 "app" "name" ["fallback"] = Some "fallback" ∧
  MustBool emptyValueStore 1 "app" "debug" [false] = Some true.
Proof.
  split.
  - apply (proj1 (MustValue_default_on_empty emptyValueStore "app" "name" 1
                    "" None "fallback" [] eq_refl)).
  - apply (proj1 (proj2 (MustValue_default_on_empty emptyValueStore "app" "debug" 1
                    "true" None "" [] eq_refl)) true None false []).
    reflexivity.
Defined.

(** ** The reader, line by line *)

Lemma data_setKeyComments c section key comments :
  data (fst (setKeyComments c section key comments)) = data c.
Proof.
  unfold setKeyComments.
  destruct (keyComments c !! normSection section);
    destruct (Nat.eqb (len comments) 0); reflexivity.
Qed.

Lemma data_setSectionComments c section comments :
  data (fst (setSectionComments c section comments)) = data c.
Proof.
  unfold setSectionComments. destruct (Nat.eqb (len comments) 0); reflexivity.
Qed.

Lemma int_incr_small (z : Z) :
  (- 2 ^ 63 ≤ z < 2 ^ 63 - 1)%Z → int_incr z = (z + 1)%Z.
Proof.
  intros H. unfold int_incr, int_wrap.
  rewrite Z.mod_small by lia. lia.
Qed.

Section ReadLine.

Variable LineBreak : string.

Lemma readLine_empty st : readLine LineBreak st "" = inl st.
Proof. reflexivity. Qed.

Lemma readLine_comment st line :
  line ≠ "" → isComment line = true →
  readLine LineBreak st line =
  inl {| rs_store := rs_store st; rs_count := rs_count st;
         rs_section := rs_section st;
         rs_comments :=
           if Nat.eqb (len (rs_comments st)) 0 then line
           else rs_comments st ++ LineBreak ++ line |}.
Proof.
  intros Hne Hc. unfold readLine.
  apply len_eqb_0_false in Hne. by rewrite Hne, Hc.
Qed.

Lemma readLine_header st line :
  line ≠ "" → isComment line = false → isHeader line = true →
  ∃ st', readLine LineBreak st line = inl st' ∧
         rs_count st' = 1%Z ∧
         rs_section st' = TrimSpace (slice 1 (len line - 1) line).
Proof.
  intros Hne Hc Hh. unfold readLine.
  apply len_eqb_0_false in Hne. rewrite Hne, Hc, Hh.
  destruct (Nat.ltb 0 (len (rs_comments st))); eexists; done.
Qed.

Lemma readLine_blank_section st line :
  line ≠ "" → isComment line = false → isHeader line = false →
  rs_section st = "" →
  readLine LineBreak st line = inr (ReadError ERR_BLANK_SECTION_NAME line).
Proof.
  intros Hne Hc Hh Hs. unfold readLine.
  apply len_eqb_0_false in Hne. by rewrite Hne, Hc, Hh, Hs.
Qed.

Lemma readLine_keyValue st line :
  line ≠ "" → isComment line = false → isHeader line = false →
  rs_section st ≠ "" →
  readLine LineBreak st line = readKeyValue st line.
Proof.
  intros Hne Hc Hh Hs. unfold readLine.
  apply len_eqb_0_false in Hne. rewrite Hne, Hc, Hh.
  by destruct (String.eqb_spec (rs_section st) "").
Qed.

(** [readKeyValue] fails with [ERR_COULD_NOT_PARSE] only, on its line. *)
Lemma readKeyValue_error st line e :
  readKeyValue st line = inr e → e = ReadError ERR_COULD_NOT_PARSE line.
Proof.
  unfold readKeyValue. destruct (parseKey line) as [[i key]|]; [|congruence].
  destruct (String.eqb key "-");
    destruct (parseValue _); try congruence;
    destruct (Nat.ltb 0 _); congruence.
Qed.

(** What a key/value line does to the state. *)
Lemma readKeyValue_ok st line i key value :
  parseKey line = Some (i, key) →
  parseValue (TrimSpace (slice_from (i + 1) line)) = Some value →
  ∃ st', readKeyValue st line = inl st' ∧
    rs_section st' = rs_section st ∧
    rs_count st' =
      (if String.eqb key "-" then int_incr (rs_count st) else rs_count st) ∧
    data (rs_store st') =
      data (fst (setValue (rs_store st) (rs_section st)
                   (if String.eqb key "-" then "#" ++ Sprint (rs_count st) else key)
                   value)).
Proof.
  intros Hk Hv. unfold readKeyValue. rewrite Hk.
  destruct (String.eqb key "-"); rewrite Hv;
    destruct (Nat.ltb 0 (len (rs_comments st))); eexists;
    (split; [reflexivity|]); simpl; rewrite ?data_setKeyComments; done.
Qed.

End ReadLine.

Lemma readKeyValue_inl st line st' :
  readKeyValue st line = inl st' →
  ∃ i key value,
    parseKey line = Some (i, key) ∧
    parseValue (TrimSpace (slice_from (i + 1) line)) = Some value.
Proof.
  unfold readKeyValue. destruct (parseKey line) as [[i key]|]; [|done].
  intros H. exists i, key.
  destruct (parseValue _) as [value|] eqn:Hv.
  - by exists value.
  - by destruct (String.eqb key "-").
Qed.

Lemma readKeyValue_section st line st' :
  readKeyValue st line = inl st' → rs_section st' = rs_section st.
Proof.
  intros H. destruct (readKeyValue_inl _ _ _ H) as (i & key & value & Hk & Hv).
  destruct (readKeyValue_ok st line i key value Hk Hv) as (st'' & H' & Hs & _).
  congruence.
Qed.

(** [read] is [readLine] over the lines of its input. *)
Lemma readLoop_readLines (LineBreak : string) st cur input :
  readLoop LineBreak st cur input =
  readLines LineBreak st (splitLines cur input).
Proof.
  revert st cur. induction input as [|ch rest IH]; intros st cur.
  - cbn [readLoop splitLines readLines]. by destruct (readLine _ _ _).
  - cbn [readLoop splitLines]. destruct (Ascii.eqb ch newline).
    + cbn [readLines]. destruct (readLine _ _ _); [apply IH|done].
    + apply IH.
Qed.

Lemma readLine_blank_only (LineBreak : string) st line e :
  readLine LineBreak st line = inr e → readReason e = ERR_BLANK_SECTION_NAME →
  rs_section st = "" ∧ e = ReadError ERR_BLANK_SECTION_NAME line ∧
  line ≠ "" ∧ isComment line = false ∧ isHeader line = false.
Proof.
  intros H Hr. unfold readLine in H.
  destruct (Nat.eqb (len line) 0) eqn:Hlen; [done|].
  apply len_eqb_0_false in Hlen.
  destruct (isComment line) eqn:Hc; [done|].
  destruct (isHeader line) eqn:Hh.
  { by destruct (Nat.ltb 0 (len (rs_comments st))). }
  destruct (String.eqb_spec (rs_section st) "") as [Hs|Hs].
  - injection H as <-. done.
  - apply readKeyValue_error in H. subst e. done.
Qed.

Lemma readLine_section_empty (LineBreak : string) st line st' :
  readLine LineBreak st line = inl st' → rs_section st' = "" →
  rs_section st = "" ∨ isBlankHeader line.
Proof.
  intros H Hs. unfold readLine in H.
  destruct (Nat.eqb (len line) 0) eqn:Hlen.
  { injection H as <-. by left. }
  destruct (isComment line) eqn:Hc.
  { injection H as <-. by left. }
  destruct (isHeader line) eqn:Hh.
  { right. split; [done|].
    destruct (Nat.ltb 0 (len (rs_comments st))); injection H as <-; done. }
  destruct (String.eqb_spec (rs_section st) "") as [Hs'|Hs']; [done|].
  apply readKeyValue_section in H. left. congruence.
Qed.

Lemma readLines_blank_header (LineBreak : string) ls st st' e :
  readLines LineBreak st ls = (st', Some e) →
  readReason e = ERR_BLANK_SECTION_NAME → rs_section st ≠ "" →
  ∃ l, l ∈ ls ∧ isBlankHeader (TrimSpace l).
Proof.
  revert st. induction ls as [|l ls IH]; intros st H Hr Hs; [done|].
  cbn [readLines] in H.
  destruct (readLine LineBreak st (TrimSpace l)) as [st1|e1] eqn:Hl.
  - destruct (decide (rs_section st1 = "")) as [Hs1|Hs1].
    + destruct (readLine_section_empty _ _ _ _ Hl Hs1) as [?|Hb]; [done|].
      exists l. split; [apply list_elem_of_here|done].
    + destruct (IH st1 H Hr Hs1) as (l' & Hin & Hb).
      exists l'. split; [by apply list_elem_of_further|done].
  - injection H as <- <-.
    by destruct (readLine_blank_only _ _ _ _ Hl Hr) as (? & _).
Qed.

(** Under a section name that is not empty a line fails with
    [CouldNotParse] only. *)
Lemma readLine_error_named (LineBreak : string) st line e :
  rs_section st ≠ "" → readLine LineBreak st line = inr e →
  e = ReadError ERR_COULD_NOT_PARSE line.
Proof.
  intros Hs H. unfold readLine in H.
  destruct (Nat.eqb (len line) 0); [done|].
  destruct (isComment line); [done|].
  destruct (isHeader line).
  { by destruct (Nat.ltb 0 (len (rs_comments st))). }
  destruct (String.eqb_spec (rs_section st) "") as [Hs'|Hs']; [done|].
  by apply readKeyValue_error in H.
Qed.

(** A line that is not a header leaves the current section as it is. *)
Lemma readLine_not_header (LineBreak : string) st line st' :
  readLine LineBreak st line = inl st' → isHeader line = false →
  rs_section st' = rs_section st.
Proof.
  intros H Hh. unfold readLine in H. rewrite Hh in H.
  destruct (Nat.eqb (len line) 0); [by injection H as <-|].
  destruct (isComment line); [by injection H as <-|].
  destruct (String.eqb (rs_section st) ""); [done|].
  by apply readKeyValue_section in H.
Qed.

(** As long as no header is read, the current section stays as it is and,
    its name not being empty, the only error is [CouldNotParse]. *)
Lemma readLines_before_header (LineBreak : string) ls st st' err :
  Forall (λ l, isHeader (TrimSpace l) = false) ls →
  rs_section st ≠ "" →
  readLines LineBreak st ls = (st', err) →
  rs_section st' = rs_section st ∧
  ∀ e, err = Some e → readReason e = ERR_COULD_NOT_PARSE.
Proof.
  intros Hall. revert st. induction Hall as [|l ls Hl Hall IH]; intros st Hs H.
  - injection H as <- <-. done.
  - cbn [readLines] in H.
    destruct (readLine LineBreak st (TrimSpace l)) as [st1|e1] eqn:H1.
    + pose proof (readLine_not_header _ _ _ _ H1 Hl) as Hs1.
      destruct (IH st1) as [E He]; [congruence|done|].
      split; [congruence|done].
    + injection H as <- <-. split; [done|]. intros e [= <-].
      by rewrite (readLine_error_named _ _ _ _ Hs H1).
Qed.

(** ** C2: the error [BlankSectionName] *)

(** C2, as stated, fails: before any header the current section is DEFAULT,
    and a key/value line read there is stored in the DEFAULT section; [read]
    returns no error. *)
Lemma read_key_value_before_header :
  snd (read LF (newConfigFile []) "k=v") = None ∧
  data (fst (read LF (newConfigFile []) "k=v")) !! "DEFAULT" ≫= (.!! "k") = Some "v".
Proof. split; vm_compute; reflexivity. Qed.

(** C2 (amended).  [read] starts with DEFAULT as the current section.  A
    line that is neither empty, nor a comment, nor a header, read while the
    current section name is empty, fails with [BlankSectionName]; this
    error occurs in no other case; the current section name becomes empty
    only by a header whose name is blank, such as [[]], so that [read]
    returns this error only for an input that holds such a header.  As long
    as no header has been read the current section is DEFAULT and the only
    error is [CouldNotParse]; a key/value line read while the current
    section is DEFAULT fails with [CouldNotParse] or, when its key and its
    value parse, leaves the data that [setValue] gives for the DEFAULT
    section, the key (or [#] and the counter for the key [-]) and the value:
    the value is then stored in DEFAULT under a key that is neither empty nor
    [-], and nothing is stored for an empty key. *)
Theorem blank_section_name_error (LineBreak : string) :
  (∀ c, rs_section (initState c) = DEFAULT_SECTION) ∧
  (∀ st line,
     line ≠ "" → isComment line = false → isHeader line = false →
     rs_section st = "" →
     readLine LineBreak st line = inr (ReadError ERR_BLANK_SECTION_NAME line)) ∧
  (∀ st line e,
     readLine LineBreak st line = inr e → readReason e = ERR_BLANK_SECTION_NAME →
     rs_section st = "" ∧ e = ReadError ERR_BLANK_SECTION_NAME line ∧
     line ≠ "" ∧ isComment line = false ∧ isHeader line = false) ∧
  (∀ st line st',
     readLine LineBreak st line = inl st' → rs_section st' = "" →
     rs_section st = "" ∨ isBlankHeader line) ∧
  (∀ c input e,
     snd (read LineBreak c input) = Some e →
     readReason e = ERR_BLANK_SECTION_NAME →
     ∃ l, l ∈ splitLines "" (skipBOM input) ∧ isBlankHeader (TrimSpace l)) ∧
  (∀ c, snd (read LineBreak c blankHeaderInput) =
        Some (ReadError ERR_BLANK_SECTION_NAME "k=v")) ∧
  (∀ c ls st err,
     Forall (λ l, isHeader (TrimSpace l) = false) ls →
     readLines LineBreak (initState c) ls = (st, err) →
     rs_section st = DEFAULT_SECTION ∧
     ∀ e, err = Some e → readReason e = ERR_COULD_NOT_PARSE) ∧
  (∀ c input e,
     Forall (λ l, isHeader (TrimSpace l) = false) (splitLines "" (skipBOM input)) →
     snd (read LineBreak c input) = Some e →
     readReason e = ERR_COULD_NOT_PARSE) ∧
  (∀ st line,
     rs_section st = DEFAULT_SECTION →
     line ≠ "" → isComment line = false → isHeader line = false →
     (∀ e, readLine LineBreak st line = inr e →
           e = ReadError ERR_COULD_NOT_PARSE line ∧
           (parseKey line = None ∨
            ∃ i key, parseKey line = Some (i, key) ∧
                     parseValue (TrimSpace (slice_from (i + 1) line)) = None)) ∧
     (∀ i key value,
        parseKey line = Some (i, key) →
        parseValue (TrimSpace (slice_from (i + 1) line)) = Some value →
        ∃ st', readLine LineBreak st line = inl st' ∧
          rs_section st' = DEFAULT_SECTION ∧
          data (rs_store st') =
            data (fst (setValue (rs_store st) DEFAULT_SECTION
                         (if String.eqb key "-"
                          then "#" ++ Sprint (rs_count st) else key)
                         value)) ∧
          (key ≠ "" → key ≠ "-" →
           data (rs_store st') !! DEFAULT_SECTION ≫= (.!! key) = Some value) ∧
          (key = "" → data (rs_store st') = data (rs_store st)))).
Proof.
  split; [done|]. split; [apply readLine_blank_section|].
  split; [apply readLine_blank_only|].
  split; [apply readLine_section_empty|]. split.
  { intros c input e H Hr. unfold read in H.
    rewrite readLoop_readLines in H.
    destruct (readLines _ _ _) as [st' err] eqn:Hls. simpl in H. subst err.
    by apply (readLines_blank_header _ _ _ _ _ Hls Hr). }
  split; [intros c; vm_compute; reflexivity|]. split.
  { intros c ls st err Hall H.
    assert (rs_section (initState c) ≠ "") as Hs by done.
    exact (readLines_before_header _ _ _ _ _ Hall Hs H). }
  split.
  { intros c input e Hall H. unfold read in H.
    rewrite readLoop_readLines in H.
    destruct (readLines _ _ _) as [st' err] eqn:Hls. simpl in H. subst err.
    assert (rs_section (initState c) ≠ "") as Hs by done.
    destruct (readLines_before_header _ _ _ _ _ Hall Hs Hls) as [_ He].
    by apply He. }
  intros st line Hs Hne Hc Hh.
  assert (rs_section st ≠ "") as Hs' by by rewrite Hs.
  rewrite (readLine_keyValue LineBreak st line Hne Hc Hh Hs'). split.
  - intros e H. split; [by apply (readKeyValue_error st)|].
    destruct (parseKey line) as [[i key]|] eqn:Hk; [|by left].
    right. exists i, key. split; [done|].
    destruct (parseValue _) as [value|] eqn:Hv; [|done].
    destruct (readKeyValue_ok st line i key value Hk Hv) as (st' & H' & _).
    congruence.
  - intros i key value Hk Hv.
    destruct (readKeyValue_ok st line i key value Hk Hv)
      as (st' & H' & Hsec & _ & Hd).
    rewrite Hs in Hsec, Hd. exists st'. split; [done|]. split; [done|].
    split; [done|]. split.
    + intros Hk1 Hk2. rewrite Hd.
      apply String.eqb_neq in Hk2. rewrite Hk2.
      by apply (setValue_lookup (rs_store st) DEFAULT_SECTION key value).
    + intros ->. by rewrite Hd.
Qed.

Lemma blank_section_name_error_witness :
  readLine LF {| rs_store := newConfigFile []; rs_count := 1;
                 rs_section := ""; rs_comments := "" |} "k=v" =
  inr (ReadError ERR_BLANK_SECTION_NAME "k=v").
Proof.
  apply (proj1 (proj2 (blank_section_name_error LF)));
    [discriminate|reflexivity|reflexivity|reflexivity].
Defined.

(** ** C7: auto-increment keys *)

Lemma readLine_count_cases (LineBreak : string) st line st' :
  readLine LineBreak st line = inl st' →
  rs_count st' = rs_count st ∨ rs_count st' = 1%Z ∨
  rs_count st' = int_incr (rs_count st).
Proof.
  intros H. unfold readLine in H.
  destruct (Nat.eqb (len line) 0) eqn:Hlen.
  { injection H as <-. by left. }
  destruct (isComment line) eqn:Hc.
  { injection H as <-. by left. }
  destruct (isHeader line) eqn:Hh.
  { right. left.
    destruct (Nat.ltb 0 (len (rs_comments st))); injection H as <-; done. }
  destruct (String.eqb (rs_section st) ""); [done|].
  destruct (readKeyValue_inl _ _ _ H) as (i & key & value & Hk & Hv).
  destruct (readKeyValue_ok st line i key value Hk Hv) as (st'' & H' & _ & Hcnt & _).
  rewrite H in H'. injection H' as <-.
  destruct (String.eqb key "-"); [right; by right|by left].
Qed.

(** The counter stays between 1 and 1 plus the number of lines read. *)
Lemma readLines_count (LineBreak : string) ls st st' err :
  readLines LineBreak st ls = (st', err) →
  (1 ≤ rs_count st)%Z → (rs_count st + Z.of_nat (length ls) < 2 ^ 63)%Z →
  (1 ≤ rs_count st' ≤ rs_count st + Z.of_nat (length ls))%Z.
Proof.
  revert st. induction ls as [|l ls IH]; intros st H Hlo Hhi.
  - injection H as <- <-. simpl. lia.
  - cbn [readLines] in H. cbn [length] in Hhi |- *.
    destruct (readLine LineBreak st (TrimSpace l)) as [st1|e1] eqn:Hl.
    + assert (1 ≤ rs_count st1 ≤ rs_count st + 1)%Z as Hst1.
      { destruct (readLine_count_cases _ _ _ _ Hl) as [E|[E|E]]; rewrite E;
          [lia|lia|].
        rewrite int_incr_small; lia. }
      specialize (IH st1 H). lia.
    + injection H as <- <-. lia.
Qed.

Lemma splitLines_length cur input :
  (length (splitLines cur input) ≤ S (len input))%nat.
Proof.
  unfold len.
  revert cur. induction input as [|ch rest IH]; intros cur; simpl; [lia|].
  destruct (Ascii.eqb ch newline); simpl.
  - specialize (IH ""). lia.
  - specialize (IH (cur ++ String ch "")). lia.
Qed.

(** C7.  The counter starts at 1 and a header sets it back to 1.  A
    key/value line whose key is [-] is stored under the key [#n], where [n]
    is the counter written in decimal, and adds one to the counter; a line
    with another key, a comment or an empty line leaves the counter as it
    is.  Reading [-=first] then [-=second] in a section [s] gives [#1] the
    value [first] and [#2] the value [second].
    The counter is an [int]: it stays between 1 and the number of lines
    read plus one, so it does not wrap around for an input of fewer than
    [2^63 - 3] bytes. *)
Theorem auto_increment_keys (LineBreak : string) :
  (∀ c, rs_count (initState c) = 1%Z) ∧
  (∀ st line,
     line ≠ "" → isComment line = false → isHeader line = true →
     ∃ st', readLine LineBreak st line = inl st' ∧ rs_count st' = 1%Z) ∧
  (∀ st line i value,
     line ≠ "" → isComment line = false → isHeader line = false →
     rs_section st ≠ "" →
     parseKey line = Some (i, "-") →
     parseValue (TrimSpace (slice_from (i + 1) line)) = Some value →
     (1 ≤ rs_count st < 2 ^ 63 - 1)%Z →
     ∃ st', readLine LineBreak st line = inl st' ∧
       rs_count st' = (rs_count st + 1)%Z ∧
       rs_section st' = rs_section st ∧
       data (rs_store st') !! rs_section st
         ≫= (.!! ("#" ++ Sprint (rs_count st))) = Some value) ∧
  (∀ st line i key st',
     isHeader line = false →
     parseKey line = Some (i, key) → key ≠ "-" →
     readLine LineBreak st line = inl st' → rs_count st' = rs_count st) ∧
  (∀ st line,
     line = "" ∨ isComment line = true →
     ∃ st', readLine LineBreak st line = inl st' ∧ rs_count st' = rs_count st) ∧
  (∀ c input st' err,
     readLoop LineBreak (initState c) "" input = (st', err) →
     (Z.of_nat (len input) < 2 ^ 63 - 3)%Z →
     (1 ≤ rs_count st' < 2 ^ 63 - 1)%Z) ∧
  (∀ rest, parseKey ("-=" ++ rest) = Some (1, "-")) ∧
  (snd (read LineBreak (newConfigFile []) autoInput) = None ∧
   data (fst (read LineBreak (newConfigFile []) autoInput)) !! "s"
     ≫= (.!! "#1") = Some "first" ∧
   data (fst (read LineBreak (newConfigFile []) autoInput)) !! "s"
     ≫= (.!! "#2") = Some "second").
Proof.
  split; [done|].
  split.
  { intros st line Hne Hc Hh.
    destruct (readLine_header LineBreak st line Hne Hc Hh) as (st' & H & Hcnt & _).
    by exists st'. }
  split.
  { intros st line i value Hne Hc Hh Hs Hk Hv Hcnt.
    rewrite readLine_keyValue by done.
    destruct (readKeyValue_ok st line i "-" value Hk Hv) as (st' & H & Hsec & Hc' & Hd).
    exists st'. split; [done|]. split; [|split; [done|]].
    - rewrite Hc'. simpl. apply int_incr_small. lia.
    - rewrite Hd. simpl.
      pose proof (setValue_lookup (rs_store st) (rs_section st)
                    ("#" ++ Sprint (rs_count st)) value) as Hl.
      rewrite normSection_nonempty in Hl by done. by apply Hl. }
  split.
  { intros st line i key st' Hh Hk Hne H. unfold readLine in H.
    destruct (Nat.eqb (len line) 0); [by injection H as <-|].
    destruct (isComment line); [by injection H as <-|].
    rewrite Hh in H. destruct (String.eqb (rs_section st) ""); [done|].
    destruct (readKeyValue_inl _ _ _ H) as (i' & key' & value & Hk' & Hv).
    destruct (readKeyValue_ok st line i' key' value Hk' Hv) as (st'' & H' & _ & Hcnt & _).
    rewrite H in H'. injection H' as <-. rewrite Hcnt.
    rewrite Hk in Hk'. injection Hk' as <- <-.
    by destruct (String.eqb_spec key "-"). }
  split.
  { intros st line [->|Hc].
    - by exists st.
    - destruct (decide (line = "")) as [->|Hne]; [by exists st|].
      rewrite readLine_comment by done. by eexists. }
  split.
  { intros c input st' err H Hlen. rewrite readLoop_readLines in H.
    pose proof (splitLines_length "" input) as Hl.
    apply readLines_count in H;
      change (rs_count (initState c)) with 1%Z in *; lia. }
  split; [done|].
  repeat split; vm_compute; reflexivity.
Qed.

Lemma auto_increment_keys_witness :
  ∃ st', readLine LF {| rs_store := newConfigFile []; rs_count := 1;
                        rs_section := "s"; rs_comments := "" |} "-=first" = inl st' ∧
    rs_count st' = 2%Z ∧ rs_section st' = "s" ∧
    data (rs_store st') !! "s" ≫= (.!! "#1") = Some "first".
Proof.
  apply (proj1 (proj2 (proj2 (auto_increment_keys LF)))
           {| rs_store := newConfigFile []; rs_count := 1;
              rs_section := "s"; rs_comments := "" |} "-=first" 1 "first");
    try reflexivity; try discriminate.
  simpl. lia.
Defined.

(** ** C8: the error [CouldNotParse] *)

Lemma IndexAny_zero (s chars : string) :
  IndexAny s chars = Some 0 ↔
  ∃ ch rest, s = String ch rest ∧ mem_byte ch chars = true.
Proof.
  destruct s as [|ch s]; simpl.
  - split; [done|]. by intros (? & ? & ? & _).
  - destruct (mem_byte ch chars) eqn:Hm.
    + split; [|done]. intros _. by exists ch, s.
    + split.
      * by destruct (IndexAny s chars).
      * intros (ch' & rest & [= <- <-] & H). congruence.
Qed.

Lemma slice_from_add (i j : nat) (s : string) :
  slice_from i (slice_from j s) = slice_from (i + j) s.
Proof.
  revert s. induction j as [|j IH]; intros s.
  - by rewrite Nat.add_0_r.
  - rewrite Nat.add_succ_r. destruct s as [|ch s]; simpl.
    + by destruct i.
    + apply IH.
Qed.

(** At the position that [Index] returns, the separator is there. *)
Lemma Index_prefix (s sep : string) (pos : nat) :
  Index s sep = Some pos → HasPrefix (slice_from pos s) sep = true.
Proof.
  revert pos. induction s as [|ch s IH]; intros pos; cbn [Index].
  - destruct (HasPrefix "" sep) eqn:Hp; [|done]. by intros [= <-].
  - destruct (HasPrefix (String ch s) sep) eqn:Hp.
    + by intros [= <-].
    + destruct (Index s sep) as [p|] eqn:Hi; [|done].
      intros [= <-]. simpl. by apply IH.
Qed.

Lemma keyQuoteOf_cases (line : string) :
  keyQuoteOf line = "" ∨ keyQuoteOf line = quote1 ∨
  keyQuoteOf line = quote3 ∨ keyQuoteOf line = backquote.
Proof.
  unfold keyQuoteOf. destruct (byte_at 0 line) as [ch|]; [|by left].
  destruct (Ascii.eqb ch dquote).
  - destruct (_ && _); tauto.
  - destruct (Ascii.eqb ch "`"); tauto.
Qed.

Lemma HasPrefix_head (ch q : ascii) (rest qs : string) :
  HasPrefix (String ch rest) (String q qs) = true → q = ch.
Proof.
  unfold HasPrefix. cbn [String.prefix]. by destruct (ascii_dec q ch).
Qed.

(** The closing marker of a quoted key is not a delimiter. *)
Lemma quoted_key_delimiter_not_zero (line : string) (pos : nat) :
  keyQuoteOf line ≠ "" →
  Index (slice_from (len (keyQuoteOf line)) line) (keyQuoteOf line) = Some pos →
  IndexAny (slice_from (pos + len (keyQuoteOf line)) line) "=:" ≠ Some 0.
Proof.
  intros Hq Hi Hz. apply Index_prefix in Hi. rewrite slice_from_add in Hi.
  apply IndexAny_zero in Hz as (ch & rest & Hs & Hm). rewrite Hs in Hi.
  destruct (keyQuoteOf_cases line) as [E|[E|[E|E]]]; rewrite E in Hi; [done|..];
    apply HasPrefix_head in Hi; subst ch; done.
Qed.

(** A comparison of the first bytes of [s] with [p] is a test of prefix. *)
Lemma eqb_slice_to_prefix (p s : string) :
  (len p ≤ len s)%nat → String.eqb (slice_to (len p) s) p = HasPrefix s p.
Proof.
  unfold HasPrefix. revert s. induction p as [|a p IH]; intros s Hl.
  - by destruct s.
  - destruct s as [|b s]; [simpl in Hl; lia|].
    cbn [len String.length slice_to String.eqb String.prefix].
    destruct (ascii_dec a b) as [->|Hab].
    + rewrite Ascii.eqb_refl. apply IH. simpl in Hl. lia.
    + apply Ascii.eqb_neq in Hab. rewrite Ascii.eqb_sym, Hab. done.
Qed.

(** The marker that the code takes for the key is the one of [keyMarker]. *)
Lemma keyQuoteOf_keyMarker (line : string) : keyQuoteOf line = keyMarker line.
Proof.
  unfold keyQuoteOf, keyMarker. destruct line as [|a rest]; [done|].
  cbn [byte_at String.get]. unfold quote1, backquote.
  rewrite !HasPrefix_byte, (Ascii.eqb_sym dquote a), (Ascii.eqb_sym "`" a).
  destruct (Nat.leb 6 (len (String a rest))) eqn:Hl; cbn [andb].
  - apply Nat.leb_le in Hl.
    change (slice 0 3 (String a rest)) with (slice_to (len quote3) (String a rest)).
    rewrite eqb_slice_to_prefix by (unfold len in *; simpl in *; lia).
    destruct (HasPrefix (String a rest) quote3) eqn:Hp.
    + apply HasPrefix_head in Hp as <-. by rewrite Ascii.eqb_refl.
    + done.
  - done.
Qed.

(** The marker that the code takes for the value is the one of
    [valueMarker]. *)
Lemma valQuoteOf_valueMarker (v : string) : valQuoteOf v = valueMarker v.
Proof.
  unfold valQuoteOf, valueMarker.
  assert (String.eqb (if Nat.leb 2 (len v) then slice 0 1 v else "") backquote
          = Nat.leb 2 (len v) && HasPrefix v backquote) as ->.
  { destruct (Nat.leb 2 (len v)) eqn:Hl; [|done]. apply Nat.leb_le in Hl.
    change (slice 0 1 v) with (slice_to (len backquote) v).
    apply eqb_slice_to_prefix. unfold len in *. simpl in *. lia. }
  destruct (_ && _); [done|].
  destruct (Nat.leb 6 (len v)) eqn:Hl; [|done]. apply Nat.leb_le in Hl.
  change (slice 0 3 v) with (slice_to (len quote3) v).
  rewrite eqb_slice_to_prefix by (unfold len in *; simpl in *; lia). done.
Qed.

Lemma parseKey_None (line : string) :
  parseKey line = None ↔
  keyQuoteUnterminated line ∨ quotedNoDelimiter line ∨
  unquotedNoDelimiter line ∨ delimiterAtZero line.
Proof.
  unfold parseKey, keyQuoteUnterminated, unquotedNoDelimiter, delimiterAtZero,
    quotedNoDelimiter.
  rewrite <- !keyQuoteOf_keyMarker.
  destruct (String.eqb_spec (keyQuoteOf line) "") as [Hq|Hq]; cbn [negb].
  - rewrite <- IndexAny_None, <- IndexAny_zero.
    destruct (IndexAny line "=:") as [[|i]|]; split; try tauto; try done.
    intros [[? _]|[[? _]|[[_ ?]|[_ ?]]]]; done.
  - destruct (Index _ _) as [pos|] eqn:Hi.
    + pose proof (quoted_key_delimiter_not_zero line pos Hq Hi) as Hz.
      destruct (IndexAny _ _) as [[|i]|] eqn:Ha; [done| |].
      * split; [done|].
        intros [[_ ?]|[[_ (p & [= <-] & Hn)]|[[? _]|[? _]]]]; try done.
        apply IndexAny_None in Hn. congruence.
      * split; [|done]. intros _. right. left. split; [done|].
        exists pos. split; [done|]. by apply IndexAny_None.
    + split; [|done]. intros _. by left.
Qed.

(** The delimiter that the code finds is the one of [delimiterAt]. *)
Lemma parseKey_delimiterAt (line : string) (i : nat) (key : string) :
  parseKey line = Some (i, key) → delimiterAt line = Some i.
Proof.
  unfold parseKey, delimiterAt. rewrite <- !keyQuoteOf_keyMarker.
  destruct (String.eqb (keyQuoteOf line) ""); cbn [negb].
  - destruct (IndexAny line "=:") as [[|j]|]; [done| |done]. by intros [= <- _].
  - destruct (Index _ _) as [pos|]; [|done].
    destruct (IndexAny _ _) as [[|j]|]; [done| |done]. by intros [= <- _].
Qed.

Lemma parseValue_None (lineRight : string) :
  parseValue lineRight = None ↔
  valueMarker lineRight ≠ "" ∧
  LastIndex (slice_from (len (valueMarker lineRight)) lineRight)
    (valueMarker lineRight) = None.
Proof.
  unfold parseValue. rewrite <- !valQuoteOf_valueMarker.
  destruct (String.eqb_spec (valQuoteOf lineRight) "") as [Hq|Hq]; cbn [negb].
  - split; [done|]. by intros [? _].
  - destruct (LastIndex _ _); split; try done. by intros [_ ?].
Qed.

(** C8, as stated, fails in both directions.  The code returns
    [CouldNotParse] in two more cases: the line [k=`abc] has an unquoted key
    and a delimiter at position 1, but its value opens with a backtick that is
    not closed; the line [`k`] has a quoted key that is closed, but no
    delimiter after it.  And a line that begins with a triple double quote
    which is not found again need not fail: on the five bytes of [dquote
    dquote dquote = w] the code takes the double quote for the marker of the
    key, reads an empty key closed by the second double quote, finds the
    delimiter after the third and returns the state it was given. *)
Lemma could_not_parse_other_cases :
  readKeyValue (initState (newConfigFile [])) "k=`abc" =
    inr (ReadError ERR_COULD_NOT_PARSE "k=`abc") ∧
  ¬ claimedParseFailure "k=`abc" ∧
  readKeyValue (initState (newConfigFile [])) "`k`" =
    inr (ReadError ERR_COULD_NOT_PARSE "`k`") ∧
  ¬ claimedParseFailure "`k`" ∧
  claimedParseFailure (quote3 ++ "=w") ∧
  claimedKeyMarker (quote3 ++ "=w") = quote3 ∧
  Index (slice_from (len quote3) (quote3 ++ "=w")) quote3 = None ∧
  readKeyValue (initState (newConfigFile [])) (quote3 ++ "=w") =
    inl (initState (newConfigFile [])).
Proof.
  split; [reflexivity|]. split; [|split; [reflexivity|split]].
  - intros [[H _]|[[_ H]|(ch & rest & [= <- <-] & H)]]; done.
  - intros [[_ H]|[[H _]|(ch & rest & [= <- <-] & H)]]; done.
  - split; [by left|]. repeat split; vm_compute; reflexivity.
Qed.

(** C8 (amended).  The marker of the key is the triple double quote on a
    line of six bytes or more that begins with it, the double quote on any
    other line that begins with a double quote, the backtick on a line that
    begins with a backtick, and none otherwise.  A key/value line fails, and
    then with [CouldNotParse] on that line, exactly when: the marker of the
    key does not occur again past the opening marker; or it does and neither
    [=] nor [:] follows the closing marker; or the key has no marker and the
    line holds neither [=] nor [:]; or the key has no marker and the line
    begins with [=] or [:]; or what follows the delimiter, trimmed, begins
    with a backtick (in a value of two bytes or more) or with a triple double
    quote (in a value of six bytes or more) that does not occur again past
    that opening marker. *)
Theorem could_not_parse_iff st line :
  (∀ e, readKeyValue st line = inr e → e = ReadError ERR_COULD_NOT_PARSE line) ∧
  (readKeyValue st line = inr (ReadError ERR_COULD_NOT_PARSE line) ↔
   keyQuoteUnterminated line ∨ quotedNoDelimiter line ∨
   unquotedNoDelimiter line ∨ delimiterAtZero line ∨
   valueQuoteUnterminated line).
Proof.
  split; [intros e; apply readKeyValue_error|].
  assert (keyQuoteUnterminated line ∨ quotedNoDelimiter line ∨
            unquotedNoDelimiter line ∨ delimiterAtZero line ∨
            valueQuoteUnterminated line ↔
          parseKey line = None ∨ valueQuoteUnterminated line) as ->.
  { rewrite parseKey_None. tauto. }
  unfold readKeyValue, valueQuoteUnterminated.
  destruct (parseKey line) as [[i key]|] eqn:Hk.
  - apply parseKey_delimiterAt in Hk. split.
    + intros H. right. exists i. split; [done|].
      apply parseValue_None.
      destruct (parseValue _) as [value|]; [|done].
      by destruct (String.eqb key "-"), (Nat.ltb 0 (len (rs_comments st))).
    + intros [?|(i' & Hd & Hv)]; [done|].
      rewrite Hk in Hd. injection Hd as <-.
      apply parseValue_None in Hv. rewrite Hv.
      by destruct (String.eqb key "-").
  - split; [by left|done].
Qed.

Lemma could_not_parse_iff_witness :
  readKeyValue (initState (newConfigFile [])) "novalue" =
    inr (ReadError ERR_COULD_NOT_PARSE "novalue").
Proof.
  apply (proj2 (could_not_parse_iff (initState (newConfigFile [])) "novalue")).
  right. right. left. split; reflexivity.
Defined.

(** ** C9: the ordered key list, continued *)

Lemma keyListInv_same c c' :
  data c' = data c → keyList c' = keyList c → keyListInv c → keyListInv c'.
Proof.
  intros Hd Hk Hinv s. unfold keysOf, hasKey. rewrite Hd, Hk. apply Hinv.
Qed.

Lemma setKeyComments_keyListInv c section key comments :
  keyListInv c → keyListInv (fst (setKeyComments c section key comments)).
Proof.
  apply keyListInv_same; [apply data_setKeyComments|].
  unfold setKeyComments.
  destruct (keyComments c !! normSection section);
    destruct (Nat.eqb (len comments) 0); reflexivity.
Qed.

Lemma setSectionComments_keyListInv c section comments :
  keyListInv c → keyListInv (fst (setSectionComments c section comments)).
Proof.
  apply keyListInv_same; [apply data_setSectionComments|].
  unfold setSectionComments. destruct (Nat.eqb (len comments) 0); reflexivity.
Qed.

Lemma readLine_keyListInv (LineBreak : string) st line st' :
  readLine LineBreak st line = inl st' →
  keyListInv (rs_store st) → keyListInv (rs_store st').
Proof.
  intros H Hinv. unfold readLine in H.
  destruct (Nat.eqb (len line) 0); [by injection H as <-|].
  destruct (isComment line); [by injection H as <-|].
  destruct (isHeader line).
  { destruct (Nat.ltb 0 (len (rs_comments st))); injection H as <-; simpl;
      apply setValue_preserves_keyListInv; [|done].
    by apply setSectionComments_keyListInv. }
  destruct (String.eqb (rs_section st) ""); [done|].
  unfold readKeyValue in H.
  destruct (parseKey line) as [[i key]|]; [|done].
  destruct (String.eqb key "-"); destruct (parseValue _); try done;
    destruct (Nat.ltb 0 (len (rs_comments st))); injection H as <-; simpl;
    try apply setKeyComments_keyListInv;
    by apply setValue_preserves_keyListInv.
Qed.

Lemma readLines_keyListInv (LineBreak : string) ls st :
  keyListInv (rs_store st) →
  keyListInv (rs_store (fst (readLines LineBreak st ls))).
Proof.
  revert st. induction ls as [|l ls IH]; intros st Hinv; [done|].
  cbn [readLines].
  destruct (readLine LineBreak st (TrimSpace l)) as [st1|e] eqn:Hl; [|done].
  apply IH. by apply (readLine_keyListInv _ _ _ _ Hl).
Qed.

Lemma read_keyListInv (LineBreak : string) c input :
  keyListInv c → keyListInv (fst (read LineBreak c input)).
Proof.
  intros Hinv. unfold read. rewrite readLoop_readLines.
  pose proof (readLines_keyListInv LineBreak
                (splitLines "" (skipBOM input)) (initState c) Hinv) as H.
  by destruct (readLines _ _ _).
Qed.

(** C9.  In a store built from the empty one by calls of [setValue], the
    key list of a section holds the keys set in that section in the order in
    which each was first set.  The agreement of the key lists with the data
    holds of the empty store and is kept by every [setValue], hence by
    [read].  Setting a key
    that is present changes its value and no key list; setting a key that is
    absent appends it to the list of its section. *)
Theorem keyList_first_insertion_order :
  (∀ names ops s,
     keysOf (setValues (newConfigFile names) ops) s = firstOcc (keysFor s ops)) ∧
  (∀ names, keyListInv (newConfigFile names)) ∧
  (∀ c section key value,
     keyListInv c → keyListInv (fst (setValue c section key value))) ∧
  (∀ c section key value,
     keyListInv c → hasKey c (normSection section) key →
     keyList (fst (setValue c section key value)) = keyList c ∧
     data (fst (setValue c section key value)) !! normSection section
       ≫= (.!! key) = Some value) ∧
  (∀ c section key value,
     key ≠ "" → ¬ hasKey c (normSection section) key →
     keysOf (fst (setValue c section key value)) (normSection section) =
     (keysOf c (normSection section) ++ [key])%list) ∧
  (∀ LineBreak c input,
     keyListInv c → keyListInv (fst (read LineBreak c input))).
Proof.
  split; [|split; [|split; [|split; [|split]]]]; [..|apply read_keyListInv].
  - intros names ops s. rewrite keysOf_setValues by apply keyListInv_new.
    apply fold_addKey_nil.
  - apply keyListInv_new.
  - apply setValue_preserves_keyListInv.
  - intros c section key value Hinv Hhas.
    assert (key ≠ "") as Hkey.
    { intros ->. by apply (Hinv (normSection section)). }
    split; [by apply setValue_keyList_present|by apply setValue_lookup].
  - intros c section key value Hkey Hno. by apply setValue_keysOf_absent.
Qed.

Lemma keyList_first_insertion_order_witness :
  keysOf orderStore "app" = ["b"; "a"] ∧
  keyListInv orderStore ∧
  keyList (fst (setValue orderStore "app" "b" "4")) = keyList orderStore ∧
  keysOf (fst (setValue orderStore "app" "c" "5")) "app" = ["b"; "a"; "c"].
Proof.
  destruct keyList_first_insertion_order
    as (Horder & Hnew & Hkeep & Hreset & Happ & _).
  assert (keyListInv orderStore) as Hinv.
  { unfold orderStore, storeOf. cbn [setValues fold_left].
    do 3 apply Hkeep. apply Hnew. }
  split; [|split; [done|split]].
  - unfold orderStore, storeOf. rewrite Horder. vm_compute. reflexivity.
  - apply Hreset; [done|]. vm_compute. by eexists.
  - change ["b"; "a"; "c"] with (["b"; "a"] ++ ["c"])%list.
    replace ["b"; "a"] with (keysOf orderStore (normSection "app")).
    + apply Happ; [discriminate|]. vm_compute. by intros [? ?].
    + unfold orderStore, storeOf. rewrite Horder. vm_compute. reflexivity.
Defined.


(** * Further properties of the store *)

(** ** What [getValue] returns *)

Lemma substLoop_no_error f sec section n value r e :
  substLoop f sec section n value = Some (r, e) → e = None.
Proof.
  revert value. induction n as [|n IH]; intros value.
  - rewrite substLoop_0. by intros [= _ <-].
  - rewrite substLoop_S. destruct (Nat.eqb _ 0); [by intros [= _ <-]|].
    destruct (f _) as [[nvalue err]|]; [apply IH|done].
Qed.

Lemma substLoop_returns f sec section n value :
  (∀ k, is_Some (f k)) → is_Some (substLoop f sec section n value).
Proof.
  intros Hf. revert value. induction n as [|n IH]; intros value.
  - by eexists.
  - rewrite substLoop_S. destruct (Nat.eqb _ 0); [by eexists|].
    destruct (Hf (TrimRight (TrimLeft (FindString value) "%(") ")s"))
      as [[nvalue err] ->].
    apply IH.
Qed.

(** X1.  When [getValue] returns an error, the value it returns is empty
    and the error is either [SectionNotFound], naming a section that the
    store does not have, or [KeyNotFound], naming the key asked for; when the
    key is present in the section asked for, no error is returned. *)
Theorem getValue_error_shape (depth : nat) c section key v e :
  getValue depth c section key = Some (v, e) →
  (hasKey c (normSection section) key → e = None) ∧
  (∀ err, e = Some err →
     v = "" ∧
     (Reason err = ERR_SECTION_NOT_FOUND ∧ data c !! Name err = None ∨
      err = GetError ERR_KEY_NOT_FOUND key)).
Proof.
  revert section. induction depth as [|d IH]; intros section; [done|].
  rewrite getValue_S. unfold hasKey.
  destruct (data c !! normSection section) as [sec|] eqn:Hsec; simpl.
  - destruct (sec !! key) as [value|] eqn:Hkey.
    + intros H. apply substLoop_no_error in H as ->. done.
    + destruct (LastIndex _ _) as [i|].
      * intros H. apply IH in H as [_ H]. split; [by intros [? ?]|done].
      * intros [= <- <-]. split; [by intros [? ?]|].
        intros err [= <-]. split; [done|]. by right.
  - intros [= <- <-]. split; [by intros [? ?]|].
    intros err [= <-]. split; [done|]. left. done.
Qed.

Lemma getValue_error_shape_witness :
  "" = "" ∧
  (Reason (GetError ERR_SECTION_NOT_FOUND "nosuch") = ERR_SECTION_NOT_FOUND ∧
   data dottedStore !! Name (GetError ERR_SECTION_NOT_FOUND "nosuch") = None ∨
   GetError ERR_SECTION_NOT_FOUND "nosuch" = GetError ERR_KEY_NOT_FOUND "host").
Proof.
  apply (proj2 (getValue_error_shape 1 dottedStore "nosuch" "host" ""
                  (Some (GetError ERR_SECTION_NOT_FOUND "nosuch")) eq_refl)
           (GetError ERR_SECTION_NOT_FOUND "nosuch") eq_refl).
Defined.

(** A blank section name stands for the DEFAULT section. *)
Lemma getValue_blank (d : nat) c key :
  getValue d c "" key = getValue d c DEFAULT_SECTION key.
Proof. destruct d; [done|]. by rewrite !getValue_S. Qed.

(** The lookup in the DEFAULT section returns at once when no value of that
    section holds a placeholder. *)
Lemma getValue_default_returns (d : nat) c key :
  (∀ sec k v, data c !! DEFAULT_SECTION = Some sec → sec !! k = Some v →
              ¬ hasPlaceholder v) →
  is_Some (getValue (S d) c DEFAULT_SECTION key).
Proof.
  intros Hdef. rewrite getValue_S.
  change (normSection DEFAULT_SECTION) with DEFAULT_SECTION.
  destruct (data c !! DEFAULT_SECTION) as [sec|] eqn:Hsec; [|by eexists].
  destruct (sec !! key) as [value|] eqn:Hkey; [|by eexists].
  rewrite substLoop_no_placeholder; [by eexists|].
  apply FindString_empty_iff. by apply (Hdef sec key).
Qed.

Lemma LastIndex_lt (s sep : string) (i : nat) :
  sep ≠ "" → LastIndex s sep = Some i → (i < len s)%nat.
Proof.
  intros Hsep. revert i. induction s as [|ch s IH]; intros i; cbn [LastIndex].
  - destruct sep; [done|]. done.
  - destruct (LastIndex s sep) as [j|].
    + intros [= <-]. specialize (IH j eq_refl). unfold len in *. simpl. lia.
    + destruct (HasPrefix _ _); [|done]. intros [= <-]. unfold len. simpl. lia.
Qed.

(** X2.  [getValue] returns, whatever the section and the key, when no value
    of the DEFAULT section holds a placeholder: the calls nest no deeper
    than the length of the section name plus two. *)
Theorem getValue_returns c section key :
  (∀ sec k v, data c !! DEFAULT_SECTION = Some sec → sec !! k = Some v →
              ¬ hasPlaceholder v) →
  ∀ depth : nat, (len section + 2 ≤ depth)%nat →
  is_Some (getValue depth c section key).
Proof.
  intros Hdef depth Hd.
  assert (∀ n section, (len section ≤ n)%nat →
            is_Some (getValue (n + 2) c section key)) as Hn.
  { clear section depth Hd. induction n as [|n IH]; intros section Hlen.
    - destruct section; [|unfold len in Hlen; simpl in Hlen; lia].
      rewrite getValue_blank. by apply (getValue_default_returns 1).
    - destruct (decide (section = "")) as [->|Hne].
      { rewrite getValue_blank.
        replace (S n + 2)%nat with (S (S n + 1)) by lia.
        by apply getValue_default_returns. }
      replace (S n + 2)%nat with (S (n + 2)) by lia.
      rewrite getValue_S, normSection_nonempty by done.
      destruct (data c !! section) as [sec|]; [|by eexists].
      destruct (sec !! key) as [value|].
      + apply substLoop_returns. intros k.
        replace (n + 2)%nat with (S (n + 1)) by lia.
        by apply getValue_default_returns.
      + destruct (LastIndex section ".") as [i|] eqn:Hi; [|by eexists].
        apply IH. apply LastIndex_lt in Hi; [|done].
        rewrite len_slice_to; lia. }
  destruct (Hn (len section) section (le_n _)) as [r Hr].
  exists r. by apply (getValue_mono (len section + 2)).
Qed.

Lemma getValue_returns_witness :
  is_Some (getValue 12 dottedStore "db.replica" "host").
Proof.
  apply (getValue_returns dottedStore "db.replica" "host").
  - intros sec k v H. vm_compute in H. discriminate.
  - vm_compute. lia.
Defined.

(** ** Substitution of one placeholder *)

Lemma match_here_other (ch : ascii) (s : string) :
  Ascii.eqb "%" ch = false → match_here (String ch s) = None.
Proof.
  intros H. destruct ch as [[] [] [] [] [] [] [] []]; done.
Qed.

Lemma FindString_skip (pre s : string) :
  mem_byte "%" pre = false → FindString (pre ++ s) = FindString s.
Proof.
  induction pre as [|ch pre IH]; [done|]. cbn [mem_byte].
  intros [Hch Hpre]%orb_false_elim.
  rewrite app_String. cbn [FindString].
  rewrite match_here_other by done. by apply IH.
Qed.

Lemma FindString_none (s : string) :
  mem_byte "%" s = false → FindString s = "".
Proof.
  intros H. rewrite <- (app_empty_r s). by rewrite FindString_skip.
Qed.

Lemma len_placeholder (name : string) : len (placeholder name) = (len name + 4)%nat.
Proof. unfold placeholder. rewrite !len_app. unfold len. simpl. lia. Qed.

Lemma FindString_placeholder (name post : string) :
  name ≠ "" → mem_byte ")" name = false →
  FindString (placeholder name ++ post) = placeholder name.
Proof.
  intros Hne Hno.
  pose proof (match_here_complete name post Hne Hno) as Hm.
  assert (placeholder name ++ post = "%(" ++ name ++ ")s" ++ post) as Heq.
  { unfold placeholder. by rewrite !app_assoc_s. }
  rewrite <- Heq in Hm.
  destruct (placeholder name ++ post) as [|ch rest] eqn:Hs.
  { unfold placeholder in Hs. done. }
  cbn [FindString]. rewrite Hm, <- Hs, <- len_placeholder.
  apply slice_to_app_len.
Qed.

Lemma cleanName_spec (name : string) :
  cleanName name = true →
  name ≠ "" ∧ mem_byte ")" name = false ∧
  TrimRight (TrimLeft (placeholder name) "%(") ")s" = name.
Proof.
  unfold cleanName. intros [[Hp Hf]%andb_prop Hl]%andb_prop.
  apply negb_true_iff in Hp.
  destruct name as [|first rest] eqn:Hname; [done|]. rewrite <- Hname in *.
  apply negb_true_iff in Hf.
  destruct (rev_string name) as [|last init] eqn:Hrev; [done|].
  apply negb_true_iff in Hl.
  split; [by rewrite Hname|]. split; [done|].
  apply (lookup_name_agrees name rest (rev_string init) first last);
    [done| |done|done].
  rewrite <- (rev_string_involutive name), Hrev.
  change (String last init) with (String last "" ++ init).
  by rewrite rev_string_app.
Qed.

(** [Replace] leaves alone a text in which the first byte of [old] does not
    occur. *)
Lemma replace_from_skip (t s old new : string) :
  replace_from (len t) (t ++ s) old new = replace_from 0 s old new.
Proof. induction t as [|ch t IH]; [done|]. rewrite app_String. exact IH. Qed.

Lemma HasPrefix_app (old s : string) : HasPrefix (old ++ s) old = true.
Proof.
  unfold HasPrefix. induction old as [|ch old IH]; [by destruct s|].
  rewrite app_String. cbn [String.prefix].
  by destruct (ascii_dec ch ch).
Qed.

Lemma HasPrefix_other (ch x : ascii) (s old : string) :
  Ascii.eqb x ch = false → HasPrefix (String ch s) (String x old) = false.
Proof.
  intros H. unfold HasPrefix. cbn [String.prefix].
  destruct (ascii_dec x ch) as [->|]; [|done]. by rewrite Ascii.eqb_refl in H.
Qed.

Lemma Replace_no_first_byte (x : ascii) (old new s : string) :
  mem_byte x s = false → Replace s (String x old) new = s.
Proof.
  unfold Replace. induction s as [|ch s IH]; [done|]. cbn [mem_byte].
  intros [Hch Hs]%orb_false_elim. cbn [replace_from].
  rewrite HasPrefix_other by done. by rewrite IH.
Qed.

Lemma Replace_one (x : ascii) (old new pre post : string) :
  mem_byte x pre = false → mem_byte x post = false →
  Replace (pre ++ String x old ++ post) (String x old) new = pre ++ new ++ post.
Proof.
  intros Hpre Hpost. unfold Replace.
  induction pre as [|ch pre IH].
  - rewrite !app_empty_l.
    destruct (String x old ++ post) as [|ch rest] eqn:Hs; [done|].
    cbn [replace_from]. rewrite <- Hs, HasPrefix_app.
    rewrite app_String in Hs. injection Hs as <- <-.
    replace (len (String x old) - 1)%nat with (len old)
      by (unfold len; simpl; lia).
    rewrite replace_from_skip.
    by rewrite (Replace_no_first_byte x old new post Hpost : replace_from 0 _ _ _ = _).
  - cbn [mem_byte] in Hpre. apply orb_false_elim in Hpre as [Hch Hpre].
    rewrite !(app_String ch pre). cbn [replace_from].
    rewrite HasPrefix_other by done. by rewrite IH.
Qed.

Lemma substLoop_single f sec section n pre name post found :
  mem_byte "%" pre = false → mem_byte "%" post = false →
  cleanName name = true →
  f name = Some found →
  mem_byte "%" (resolved found sec section name) = false →
  substLoop f sec section (S (S n)) (pre ++ placeholder name ++ post) =
  Some (pre ++ resolved found sec section name ++ post, None).
Proof.
  intros Hpre Hpost Hname Hf Hres.
  destruct (cleanName_spec name Hname) as (Hne & Hparen & Htrim).
  assert (FindString (pre ++ placeholder name ++ post) = placeholder name) as Hfind.
  { rewrite FindString_skip by done. by apply FindString_placeholder. }
  rewrite substLoop_S, Hfind, Htrim, Hf.
  destruct (Nat.eqb (len (placeholder name)) 0) eqn:Hlen.
  { rewrite len_placeholder in Hlen. apply Nat.eqb_eq in Hlen. lia. }
  destruct found as [nvalue err]. unfold resolved in *. cbn [fst snd] in *.
  set (nv := if _ && _ then _ else _) in *.
  change (placeholder name) with (String "%" ("(" ++ name ++ ")s")).
  rewrite Replace_one by done.
  apply substLoop_no_placeholder, FindString_none.
  by rewrite !mem_byte_app, Hpre, Hres, Hpost.
Qed.

Lemma getValue_single (d : nat) c section key sec pre name post found :
  data c !! normSection section = Some sec →
  sec !! key = Some (pre ++ placeholder name ++ post) →
  mem_byte "%" pre = false → mem_byte "%" post = false →
  cleanName name = true →
  getValue (S d) c DEFAULT_SECTION name = Some found →
  mem_byte "%" (resolved found sec (normSection section) name) = false →
  getValue (S (S d)) c section key =
  Some (pre ++ resolved found sec (normSection section) name ++ post, None).
Proof.
  intros Hsec Hkey Hpre Hpost Hname Hf Hres.
  rewrite getValue_S, Hsec, Hkey. by apply (substLoop_single _ _ _ 198).
Qed.

Lemma getValue_default_missing (d : nat) c name :
  data c !! DEFAULT_SECTION ≫= (.!! name) = None →
  ∃ err, getValue (S d) c DEFAULT_SECTION name = Some ("", Some err).
Proof.
  intros H. rewrite getValue_S.
  change (normSection DEFAULT_SECTION) with DEFAULT_SECTION.
  destruct (data c !! DEFAULT_SECTION) as [sec|]; [|by eexists].
  simpl in H. rewrite H. by eexists.
Qed.



(** X4.  For a value [pre ++ %(name)s ++ post] stored in a section other
    than DEFAULT, with no [%] in [pre] and [post] and a name that the trims
    leave as it is ([cleanName]): when the DEFAULT section does not hold the
    name and the section asked for holds it with a value [w] free of [%],
    [getValue] returns [pre ++ w ++ post] and no error, whatever the bound
    on the nesting from 2 on. *)
Theorem getValue_substitutes_same_section (d : nat) c section key sec
    pre name post w :
  data c !! normSection section = Some sec →
  sec !! key = Some (pre ++ placeholder name ++ post) →
  mem_byte "%" pre = false → mem_byte "%" post = false →
  cleanName name = true →
  normSection section ≠ DEFAULT_SECTION →
  data c !! DEFAULT_SECTION ≫= (.!! name) = None →
  sec !! name = Some w → mem_byte "%" w = false →
  getValue (S (S d)) c section key = Some (pre ++ w ++ post, None).
Proof.
  intros Hsec Hkey Hpre Hpost Hname Hs Hdef Hw Hno.
  destruct (getValue_default_missing d c name Hdef) as [err Hf].
  pose proof (getValue_single d c section key sec pre name post _
                Hsec Hkey Hpre Hpost Hname Hf) as H.
  unfold resolved in H. cbn [fst snd] in H.
  apply String.eqb_neq in Hs. rewrite Hs, Hw in H.
  rewrite bool_decide_true in H by by eexists. by apply H.
Qed.

Lemma getValue_substitutes_same_section_witness :
  getValue 2 interpolationStore "db" "url" = Some ("tcp://3306/x", None).
Proof.
  apply (getValue_substitutes_same_section 0 interpolationStore "db" "url"
           {["addr" := "%(host)s:3306"; "port" := "3306";
             "url" := "tcp://%(port)s/x"; "dsn" := "user@%(nowhere)s/x"]}
           "tcp://" "port" "/x" "3306");
    try (vm_compute; reflexivity).
  discriminate.
Defined.



(** ** A cycle through the same section *)

Lemma HasPrefix_split (s old : string) :
  HasPrefix s old = true → s = old ++ slice_from (len old) s.
Proof.
  unfold HasPrefix. revert s. induction old as [|x old IH]; intros s; [done|].
  destruct s as [|ch s]; cbn [String.prefix]; [done|].
  destruct (ascii_dec x ch) as [->|]; [|done].
  intros H. rewrite app_String. cbn [len String.length slice_from].
  f_equal. by apply IH.
Qed.

Lemma replace_from_same (k : nat) (s old : string) :
  old ≠ "" → replace_from k s old old = slice_from k s.
Proof.
  intros Hne. revert k. induction s as [|ch s IH]; intros k.
  - by destruct k.
  - destruct k as [|k]; cbn [replace_from slice_from]; [|apply IH].
    destruct (HasPrefix (String ch s) old) eqn:Hp.
    + rewrite IH. apply HasPrefix_split in Hp.
      destruct old as [|x old]; [done|].
      rewrite app_String in Hp. injection Hp as Hc Hs. subst x.
      cbn [len String.length slice_from] in Hs.
      rewrite app_String. f_equal.
      replace (len (String ch old) - 1)%nat with (len old)
        by (unfold len; simpl; lia).
      by rewrite <- Hs.
    + by rewrite IH.
Qed.

Lemma substLoop_fixed f sec section n value found :
  FindString value ≠ "" →
  f (TrimRight (TrimLeft (FindString value) "%(") ")s") = Some found →
  resolved found sec section
    (TrimRight (TrimLeft (FindString value) "%(") ")s") = FindString value →
  substLoop f sec section n value = Some (value, None).
Proof.
  intros Hne Hf Hres. induction n as [|n IH]; [done|].
  rewrite substLoop_S, Hf.
  apply len_eqb_0_false in Hne as Hlen. rewrite Hlen.
  destruct found as [nvalue err]. unfold resolved in Hres. cbn [fst snd] in Hres.
  rewrite Hres. unfold Replace. rewrite replace_from_same by done. exact IH.
Qed.

(** X6.  For a value [pre ++ %(name)s ++ post] stored in a section other
    than DEFAULT, with no [%] in [pre] and a name that the trims leave as it
    is ([cleanName]): when the DEFAULT section does not hold the name and the
    section asked for holds it with its own placeholder [%(name)s] as value,
    [getValue] returns the stored value as it is, with the placeholder in
    it, and no error, whatever the bound on the nesting from 2 on. *)
Theorem getValue_self_reference (d : nat) c section key sec pre name post :
  data c !! normSection section = Some sec →
  sec !! key = Some (pre ++ placeholder name ++ post) →
  mem_byte "%" pre = false → cleanName name = true →
  normSection section ≠ DEFAULT_SECTION →
  data c !! DEFAULT_SECTION ≫= (.!! name) = None →
  sec !! name = Some (placeholder name) →
  getValue (S (S d)) c section key =
  Some (pre ++ placeholder name ++ post, None).
Proof.
  intros Hsec Hkey Hpre Hname Hs Hdef Hself.
  destruct (cleanName_spec name Hname) as (Hne & Hparen & Htrim).
  destruct (getValue_default_missing d c name Hdef) as [err Hf].
  assert (FindString (pre ++ placeholder name ++ post) = placeholder name) as Hfind.
  { rewrite FindString_skip by done. by apply FindString_placeholder. }
  rewrite getValue_S, Hsec, Hkey.
  apply (substLoop_fixed _ _ _ _ _ ("", Some err)); rewrite Hfind, ?Htrim.
  - done.
  - exact Hf.
  - unfold resolved. cbn [fst snd]. apply String.eqb_neq in Hs.
    rewrite Hs, Hself. by rewrite bool_decide_true by by eexists.
Qed.

Lemma getValue_self_reference_witness :
  getValue 2 selfStore "s" "a" = Some ("%(a)s", None).
Proof.
  apply (getValue_self_reference 0 selfStore "s" "a" {["a" := "%(a)s"]} "" "a" "");
    try (vm_compute; reflexivity).
  discriminate.
Defined.

(** ** [setValue] once more *)

Lemma with_data_id c : with_data c (data c) = c.
Proof. by destruct c. Qed.

(** X7.  Setting a key to the value it has changes nothing: a second
    [setValue] with the same arguments returns false and leaves the store as
    the first one left it. *)
Theorem setValue_twice c section key value :
  setValue (fst (setValue c section key value)) section key value =
  (fst (setValue c section key value), false).
Proof.
  destruct (decide (key = "")) as [->|Hkey]; [done|].
  pose proof (setValue_data c section key value Hkey) as Hd. cbv zeta in Hd.
  set (c1 := fst (setValue c section key value)) in *.
  assert (data c1 !! normSection section =
          Some (<[key := value]> (default ∅ (data c !! normSection section))))
    as Hl by by rewrite Hd, lookup_insert_eq.
  unfold setValue at 1.
  apply len_eqb_0_false in Hkey as Hlen. rewrite Hlen, Hl. cbv zeta.
  rewrite Hl. cbn [default from_option]. unfold id.
  rewrite bool_decide_true by (rewrite lookup_insert_eq; by eexists).
  rewrite insert_insert_eq, insert_id by done.
  by rewrite with_data_id.
Qed.

(** ** Nothing is removed *)

Lemma extends_refl c : extends c c.
Proof. by repeat split. Qed.

Lemma extends_trans c1 c2 c3 : extends c1 c2 → extends c2 c3 → extends c1 c3.
Proof.
  intros (Hs1 & Hk1 & Hd1 & Hh1) (Hs2 & Hk2 & Hd2 & Hh2).
  split; [by transitivity (sectionList c2)|].
  split; [intros s; by transitivity (keysOf c2 s)|].
  split; [intros s H; by apply Hd2, Hd1|intros s k H; by apply Hh2, Hh1].
Qed.

Lemma extends_same c c' :
  data c' = data c → keyList c' = keyList c → sectionList c' = sectionList c →
  extends c c'.
Proof.
  intros Hd Hk Hs. unfold extends, keysOf, hasKey. rewrite Hd, Hk, Hs.
  by repeat split.
Qed.

Lemma setValue_extends c section key value :
  extends c (fst (setValue c section key value)).
Proof.
  destruct (decide (key = "")) as [->|Hkey]; [apply extends_refl|].
  split; [|split; [|split]].
  - rewrite setValue_sectionList by done.
    destruct (data c !! _); [done|]. by apply prefix_app_r.
  - intros s. unfold keysOf. rewrite setValue_keyList by done.
    destruct (data c !! normSection section ≫= _); [done|].
    destruct (decide (s = normSection section)) as [->|Hs].
    + rewrite lookup_insert_eq. by apply prefix_app_r.
    + by rewrite lookup_insert_ne.
  - intros s. rewrite setValue_data by done.
    destruct (decide (s = normSection section)) as [->|Hs].
    + rewrite lookup_insert_eq. by eexists.
    + by rewrite lookup_insert_ne.
  - intros s k Hh. apply setValue_hasKey; [done|]. by right.
Qed.

Lemma setKeyComments_fields c section key comments :
  let c' := fst (setKeyComments c section key comments) in
  data c' = data c ∧ keyList c' = keyList c ∧ sectionList c' = sectionList c ∧
  sectionComments c' = sectionComments c.
Proof.
  unfold setKeyComments.
  destruct (keyComments c !! normSection section);
    destruct (Nat.eqb (len comments) 0); done.
Qed.

Lemma setSectionComments_fields c section comments :
  let c' := fst (setSectionComments c section comments) in
  data c' = data c ∧ keyList c' = keyList c ∧ sectionList c' = sectionList c ∧
  keyComments c' = keyComments c.
Proof.
  unfold setSectionComments. destruct (Nat.eqb (len comments) 0); done.
Qed.

Lemma readLine_extends (LineBreak : string) st line st' :
  readLine LineBreak st line = inl st' → extends (rs_store st) (rs_store st').
Proof.
  intros H. unfold readLine in H.
  destruct (Nat.eqb (len line) 0); [injection H as <-; apply extends_refl|].
  destruct (isComment line); [injection H as <-; apply extends_refl|].
  destruct (isHeader line).
  { destruct (Nat.ltb 0 (len (rs_comments st))); injection H as <-; simpl;
      [|apply setValue_extends].
    eapply extends_trans; [|apply setValue_extends].
    destruct (setSectionComments_fields (rs_store st)
                (TrimSpace (slice 1 (len line - 1) line)) (rs_comments st))
      as (? & ? & ? & _).
    by apply extends_same. }
  destruct (String.eqb (rs_section st) ""); [done|].
  unfold readKeyValue in H.
  destruct (parseKey line) as [[i key]|]; [|done].
  destruct (String.eqb key "-"); destruct (parseValue _); try done;
    destruct (Nat.ltb 0 (len (rs_comments st))); injection H as <-; simpl;
    try apply setValue_extends;
    (eapply extends_trans; [apply setValue_extends|]);
    match goal with |- extends _ (fst (setKeyComments ?c ?s ?k ?cm)) =>
      destruct (setKeyComments_fields c s k cm) as (? & ? & ? & _) end;
    by apply extends_same.
Qed.

Lemma readLines_extends (LineBreak : string) ls st :
  extends (rs_store st) (rs_store (fst (readLines LineBreak st ls))).
Proof.
  revert st. induction ls as [|l ls IH]; intros st; [apply extends_refl|].
  cbn [readLines].
  destruct (readLine LineBreak st (TrimSpace l)) as [st1|e] eqn:Hl;
    [|apply extends_refl].
  eapply extends_trans; [by apply (readLine_extends _ _ _ _ Hl)|apply IH].
Qed.

(** X8.  Neither [setValue] nor [read] removes anything, [read] not even
    when it fails: the sections and keys that were present are present, and
    the section list and the key lists only grow at their end. *)
Theorem nothing_is_removed :
  (∀ c section key value, extends c (fst (setValue c section key value))) ∧
  (∀ LineBreak c input, extends c (fst (read LineBreak c input))).
Proof.
  split; [apply setValue_extends|].
  intros LineBreak c input. unfold read. rewrite readLoop_readLines.
  pose proof (readLines_extends LineBreak (splitLines "" (skipBOM input))
                (initState c)) as H.
  by destruct (readLines _ _ _).
Qed.

(** ** What [read] keeps of what the setters keep *)

Section Preservation.

Variable P : ConfigFile → Prop.
Hypothesis P_setValue :
  ∀ c section key value, P c → P (fst (setValue c section key value)).
Hypothesis P_setSectionComments :
  ∀ c section comments, P c → P (fst (setSectionComments c section comments)).
Hypothesis P_setKeyComments :
  ∀ c section key comments, P c → P (fst (setKeyComments c section key comments)).

Lemma readLine_preserves (LineBreak : string) st line st' :
  readLine LineBreak st line = inl st' → P (rs_store st) → P (rs_store st').
Proof using P_setValue P_setSectionComments P_setKeyComments.
  intros H HP. unfold readLine in H.
  destruct (Nat.eqb (len line) 0); [by injection H as <-|].
  destruct (isComment line); [by injection H as <-|].
  destruct (isHeader line).
  { destruct (Nat.ltb 0 (len (rs_comments st))); injection H as <-; simpl;
      auto. }
  destruct (String.eqb (rs_section st) ""); [done|].
  unfold readKeyValue in H.
  destruct (parseKey line) as [[i key]|]; [|done].
  destruct (String.eqb key "-"); destruct (parseValue _); try done;
    destruct (Nat.ltb 0 (len (rs_comments st))); injection H as <-; simpl;
    auto.
Qed.

Lemma readLines_preserves (LineBreak : string) ls st :
  P (rs_store st) → P (rs_store (fst (readLines LineBreak st ls))).
Proof using P_setValue P_setSectionComments P_setKeyComments.
  revert st. induction ls as [|l ls IH]; intros st HP; [done|].
  cbn [readLines].
  destruct (readLine LineBreak st (TrimSpace l)) as [st1|e] eqn:Hl; [|done].
  apply IH. by apply (readLine_preserves _ _ _ _ Hl).
Qed.

Lemma read_preserves (LineBreak : string) c input :
  P c → P (fst (read LineBreak c input)).
Proof using P_setValue P_setSectionComments P_setKeyComments.
  intros HP. unfold read. rewrite readLoop_readLines.
  pose proof (readLines_preserves LineBreak
                (splitLines "" (skipBOM input)) (initState c) HP) as H.
  by destruct (readLines _ _ _).
Qed.

End Preservation.

(** ** The ordered section list *)

Lemma sectionListInv_new names : sectionListInv (newConfigFile names).
Proof.
  split; [constructor|]. intros s. simpl. rewrite lookup_empty.
  split; [by intros ?%elem_of_nil|by intros [? ?]].
Qed.

Lemma sectionListInv_same c c' :
  data c' = data c → sectionList c' = sectionList c →
  sectionListInv c → sectionListInv c'.
Proof. intros Hd Hs. unfold sectionListInv. by rewrite Hd, Hs. Qed.

Lemma setValue_sectionListInv c section key value :
  sectionListInv c → sectionListInv (fst (setValue c section key value)).
Proof.
  destruct (decide (key = "")) as [->|Hkey]; [done|].
  intros [Hnd Hmem]. unfold sectionListInv.
  rewrite setValue_sectionList, setValue_data by done.
  destruct (data c !! normSection section) as [sec|] eqn:Hsec.
  - split; [done|]. intros s. rewrite Hmem.
    destruct (decide (s = normSection section)) as [->|Hs].
    + rewrite lookup_insert_eq, Hsec. split; by eexists.
    + by rewrite lookup_insert_ne.
  - split.
    + apply NoDup_app. split; [done|]. split; [|apply NoDup_singleton].
      intros s Hs ->%list_elem_of_singleton. apply Hmem in Hs as [? Hs].
      congruence.
    + intros s. rewrite elem_of_app, list_elem_of_singleton, Hmem.
      destruct (decide (s = normSection section)) as [->|Hs].
      * rewrite lookup_insert_eq. split; [by eexists|by right].
      * rewrite lookup_insert_ne by done. split; [by intros [?|?]|by left].
Qed.

Lemma sectionList_setValue c section key value :
  sectionListInv c →
  sectionList (fst (setValue c section key value)) =
  if negb (String.eqb key "")
  then addKey (sectionList c) (normSection section) else sectionList c.
Proof.
  intros [_ Hmem]. destruct (String.eqb_spec key "") as [->|Hkey]; [done|].
  cbn [negb]. rewrite setValue_sectionList by done. unfold addKey.
  case_bool_decide as Hin.
  - apply Hmem in Hin as [sec ->]. done.
  - destruct (data c !! normSection section) eqn:E; [|done].
    exfalso. apply Hin, Hmem. by eexists.
Qed.

Lemma sectionList_setValues c ops :
  sectionListInv c →
  sectionList (setValues c ops) = fold_left addKey (sectionsFor ops) (sectionList c).
Proof.
  revert c. induction ops as [|[[section key] value] ops IH]; intros c Hinv; [done|].
  cbn [setValues fold_left]. fold (setValues (fst (setValue c section key value)) ops).
  rewrite IH by by apply setValue_sectionListInv.
  rewrite sectionList_setValue by done.
  unfold sectionsFor. cbn [flat_map]. fold (sectionsFor ops).
  by destruct (negb _).
Qed.

(** X9.  The section list of a store built from the empty one by calls of
    [setValue] holds the sections set, each once, in the order in which each
    was first set (a call with an empty key sets nothing).  The agreement of
    the section list with the data is kept by [setValue] and holds of every
    store that [read] fills from the empty one. *)
Theorem sectionList_first_insertion_order :
  (∀ names ops,
     sectionList (setValues (newConfigFile names) ops) = firstOcc (sectionsFor ops)) ∧
  (∀ c section key value,
     sectionListInv c → sectionListInv (fst (setValue c section key value))) ∧
  (∀ LineBreak names input,
     sectionListInv (fst (read LineBreak (newConfigFile names) input))).
Proof.
  split; [|split].
  - intros names ops. rewrite sectionList_setValues by apply sectionListInv_new.
    apply fold_addKey_nil.
  - apply setValue_sectionListInv.
  - intros LineBreak names input. apply read_preserves.
    + apply setValue_sectionListInv.
    + intros c section comments.
      destruct (setSectionComments_fields c section comments) as (? & _ & ? & _).
      by apply sectionListInv_same.
    + intros c section key comments.
      destruct (setKeyComments_fields c section key comments) as (? & _ & ? & _).
      by apply sectionListInv_same.
    + apply sectionListInv_new.
Qed.

Lemma sectionList_first_insertion_order_witness :
  sectionListInv (fst (setValue (newConfigFile []) "app" "k" "v")).
Proof.
  apply (proj1 (proj2 sectionList_first_insertion_order)).
  split; [constructor|]. intros s. simpl. rewrite lookup_empty.
  split; [by intros ?%elem_of_nil|by intros [? ?]].
Defined.

(** ** Comments *)

Lemma normComments_marker (comments : string) :
  comments ≠ "" → isComment (normComments comments) = true.
Proof.
  destruct comments as [|ch rest]; [done|]. intros _.
  unfold normComments, isComment.
  destruct (Ascii.eqb ch "#") eqn:H1; [by cbn; rewrite H1|].
  destruct (Ascii.eqb ch ";") eqn:H2; [by cbn; rewrite H1, H2|].
  done.
Qed.

Lemma normComments_verbatim (comments : string) :
  isComment comments = true → normComments comments = comments.
Proof.
  destruct comments as [|ch rest]; [done|].
  unfold normComments, isComment. cbn.
  by destruct (Ascii.eqb ch "#"), (Ascii.eqb ch ";").
Qed.

Lemma normComments_prefixed (comments : string) :
  comments ≠ "" → isComment comments = false →
  normComments comments = "; " ++ comments.
Proof.
  destruct comments as [|ch rest]; [done|]. intros _.
  unfold normComments, isComment. cbn.
  by destruct (Ascii.eqb ch "#"), (Ascii.eqb ch ";").
Qed.

Lemma setValue_comments c section key value :
  sectionComments (fst (setValue c section key value)) = sectionComments c ∧
  keyComments (fst (setValue c section key value)) = keyComments c.
Proof.
  unfold setValue. destruct (Nat.eqb (len key) 0); [done|].
  destruct (data c !! normSection section); cbv zeta;
    by destruct (bool_decide _).
Qed.

Lemma sectionComments_set_empty c section :
  sectionComments (fst (setSectionComments c section "")) !! normSection section
  = None.
Proof. unfold setSectionComments. simpl. by rewrite lookup_delete_eq. Qed.

Lemma sectionComments_set c section comments :
  comments ≠ "" →
  sectionComments (fst (setSectionComments c section comments))
    !! normSection section = Some (normComments comments).
Proof.
  intros Hne. unfold setSectionComments.
  apply len_eqb_0_false in Hne as ->. simpl. by rewrite lookup_insert_eq.
Qed.

Lemma sectionComments_set_other c section comments (s' : string) :
  s' ≠ normSection section →
  sectionComments (fst (setSectionComments c section comments)) !! s' =
  sectionComments c !! s'.
Proof.
  intros Hs. unfold setSectionComments.
  destruct (Nat.eqb (len comments) 0); simpl.
  - by rewrite lookup_delete_ne.
  - by rewrite lookup_insert_ne.
Qed.

Lemma keyComments_set_empty c section key :
  keyComments (fst (setKeyComments c section key "")) !! normSection section
    ≫= (.!! key) = None.
Proof.
  unfold setKeyComments.
  destruct (keyComments c !! normSection section) as [kc|] eqn:Hkc; simpl.
  - by rewrite lookup_insert_eq; simpl; rewrite lookup_delete_eq.
  - by rewrite Hkc.
Qed.

Lemma keyComments_set c section key comments :
  comments ≠ "" →
  keyComments (fst (setKeyComments c section key comments)) !! normSection section
    ≫= (.!! key) = Some (normComments comments).
Proof.
  intros Hne. unfold setKeyComments.
  apply len_eqb_0_false in Hne as ->.
  destruct (keyComments c !! normSection section) as [kc|] eqn:Hkc; simpl.
  - rewrite lookup_insert_eq. simpl. by rewrite lookup_insert_eq.
  - rewrite lookup_insert_eq. simpl. by rewrite lookup_singleton_eq.
Qed.

Lemma keyComments_set_other c section key comments (s' key' : string) :
  (s', key') ≠ (normSection section, key) →
  keyComments (fst (setKeyComments c section key comments)) !! s' ≫= (.!! key') =
  keyComments c !! s' ≫= (.!! key').
Proof.
  intros Hne. unfold setKeyComments.
  destruct (keyComments c !! normSection section) as [kc|] eqn:Hkc;
    destruct (Nat.eqb (len comments) 0); simpl; try done;
    (destruct (decide (s' = normSection section)) as [->|Hs];
     [rewrite lookup_insert_eq, ?Hkc; simpl|by rewrite lookup_insert_ne]).
  - apply lookup_delete_ne. congruence.
  - apply lookup_insert_ne. congruence.
  - apply lookup_singleton_ne. congruence.
Qed.

(** X10.  [setSectionComments] with an empty text removes the comment of
    the section and returns true, whether there was one or not.  With a
    non-empty text it stores the text, as it is when it starts with [#] or
    [;] and after the prefix [; ] otherwise, and returns true exactly when
    the section had no comment.  The comments of the other sections, the
    key comments, the data and the ordered lists are left as they are. *)
Theorem setSectionComments_spec c section comments :
  let s := normSection section in
  let c' := fst (setSectionComments c section comments) in
  (comments = "" →
   sectionComments c' !! s = None ∧
   snd (setSectionComments c section comments) = true) ∧
  (comments ≠ "" →
   sectionComments c' !! s = Some (normComments comments) ∧
   (snd (setSectionComments c section comments) = true ↔
    sectionComments c !! s = None)) ∧
  (isComment comments = true → normComments comments = comments) ∧
  (comments ≠ "" → isComment comments = false →
   normComments comments = "; " ++ comments) ∧
  (∀ s', s' ≠ s → sectionComments c' !! s' = sectionComments c !! s') ∧
  data c' = data c ∧ keyList c' = keyList c ∧ sectionList c' = sectionList c ∧
  keyComments c' = keyComments c.
Proof.
  intros s c'. subst s c'.
  split; [|split; [|split; [|split; [|split]]]].
  - intros ->. split; [apply sectionComments_set_empty|done].
  - intros Hne. split; [by apply sectionComments_set|].
    unfold setSectionComments. apply len_eqb_0_false in Hne as ->. simpl.
    destruct (sectionComments c !! normSection section);
      [rewrite bool_decide_true by by eexists
      |rewrite bool_decide_false by by intros [? ?]]; by split.
  - apply normComments_verbatim.
  - apply normComments_prefixed.
  - intros s' Hs. by apply sectionComments_set_other.
  - apply setSectionComments_fields.
Qed.

Lemma setSectionComments_spec_witness :
  sectionComments (fst (setSectionComments (newConfigFile []) "app" "note"))
    !! "app" = Some "; note" ∧
  sectionComments (fst (setSectionComments (newConfigFile []) "app" ""))
    !! "app" = None.
Proof.
  split.
  - apply (proj1 (proj2 (setSectionComments_spec (newConfigFile []) "app" "note"))).
    discriminate.
  - apply (proj1 (setSectionComments_spec (newConfigFile []) "app" "")).
    reflexivity.
Defined.

Lemma substLoop_ext (f g : string → option getResult) sec section n value :
  (∀ k, f k = g k) →
  substLoop f sec section n value = substLoop g sec section n value.
Proof.
  intros Hfg. revert value. induction n as [|n IH]; intros value; [done|].
  rewrite !substLoop_S, Hfg. destruct (Nat.eqb _ 0); [done|].
  destruct (g _) as [[nvalue err]|]; [apply IH|done].
Qed.

(** [getValue] reads the data of the store and nothing else. *)
Lemma getValue_data_only (c1 c2 : ConfigFile) (depth : nat) section key :
  data c1 = data c2 →
  getValue depth c1 section key = getValue depth c2 section key.
Proof.
  intros Hd. revert section key.
  induction depth as [|d IH]; intros section key; [done|].
  rewrite !getValue_S, Hd.
  destruct (data c2 !! normSection section) as [m|]; [|done].
  destruct (m !! key).
  - apply substLoop_ext. intros k. apply IH.
  - by destruct (LastIndex _ _).
Qed.

(** X11.  [setKeyComments] does the same for the comment of a key.  It
    never touches the data, the section list or the key lists: a comment can
    be set for a key or a section that the store does not hold, and
    [getValue] does not see that section. *)
Theorem setKeyComments_spec c section key comments :
  let s := normSection section in
  let c' := fst (setKeyComments c section key comments) in
  (comments = "" →
   keyComments c' !! s ≫= (.!! key) = None ∧
   snd (setKeyComments c section key comments) = true) ∧
  (comments ≠ "" →
   keyComments c' !! s ≫= (.!! key) = Some (normComments comments) ∧
   (snd (setKeyComments c section key comments) = true ↔
    keyComments c !! s ≫= (.!! key) = None)) ∧
  (∀ s' key', (s', key') ≠ (s, key) →
   keyComments c' !! s' ≫= (.!! key') = keyComments c !! s' ≫= (.!! key')) ∧
  data c' = data c ∧ keyList c' = keyList c ∧ sectionList c' = sectionList c ∧
  sectionComments c' = sectionComments c ∧
  (∀ depth key', getValue depth c' section key' = getValue depth c section key').
Proof.
  intros s c'. subst s c'.
  split; [|split; [|split]].
  - intros ->. split; [apply keyComments_set_empty|].
    unfold setKeyComments. by destruct (keyComments c !! normSection section).
  - intros Hne. split; [by apply keyComments_set|].
    unfold setKeyComments. apply len_eqb_0_false in Hne as ->.
    destruct (keyComments c !! normSection section) as [kc|] eqn:Hkc; simpl.
    + destruct (kc !! key);
        [rewrite bool_decide_true by by eexists
        |rewrite bool_decide_false by by intros [? ?]]; by split.
    + done.
  - intros s' key' Hne. by apply keyComments_set_other.
  - destruct (setKeyComments_fields c section key comments) as (Hd & Hk & Hs & Hc).
    repeat split; try done. intros depth key'. by apply getValue_data_only.
Qed.

Lemma setKeyComments_spec_witness :
  keyComments (fst (setKeyComments (newConfigFile []) "app" "k" "# note"))
    !! "app" ≫= (.!! "k") = Some "# note".
Proof.
  apply (proj1 (proj2 (setKeyComments_spec (newConfigFile []) "app" "k" "# note"))).
  discriminate.
Defined.

Lemma commentsInv_new names : commentsInv (newConfigFile names).
Proof.
  split.
  - intros s cm. simpl. by rewrite lookup_empty.
  - intros s key cm. simpl. by rewrite lookup_empty.
Qed.

Lemma setValue_commentsInv c section key value :
  commentsInv c → commentsInv (fst (setValue c section key value)).
Proof.
  destruct (setValue_comments c section key value) as [Hs Hk].
  unfold commentsInv. by rewrite Hs, Hk.
Qed.

Lemma setSectionComments_commentsInv c section comments :
  commentsInv c → commentsInv (fst (setSectionComments c section comments)).
Proof.
  intros [Hs Hk].
  destruct (setSectionComments_fields c section comments) as (_ & _ & _ & Hkc).
  split; [|by rewrite Hkc].
  intros s cm. destruct (decide (s = normSection section)) as [->|Hne].
  - destruct (decide (comments = "")) as [->|He].
    + by rewrite sectionComments_set_empty.
    + rewrite sectionComments_set by done. intros [= <-].
      by apply normComments_marker.
  - rewrite sectionComments_set_other by done. apply Hs.
Qed.

Lemma setKeyComments_commentsInv c section key comments :
  commentsInv c → commentsInv (fst (setKeyComments c section key comments)).
Proof.
  intros [Hs Hk].
  destruct (setKeyComments_fields c section key comments) as (_ & _ & _ & Hsc).
  split; [by rewrite Hsc|].
  intros s key' cm.
  destruct (decide ((s, key') = (normSection section, key))) as [[= -> ->]|Hne].
  - destruct (decide (comments = "")) as [->|He].
    + by rewrite keyComments_set_empty.
    + rewrite keyComments_set by done. intros [= <-].
      by apply normComments_marker.
  - rewrite keyComments_set_other by done. apply Hk.
Qed.

(** X12.  Every comment stored, of a section or of a key, starts with [#]
    or [;]: this holds of the empty store, is kept by [setValue], by the two
    comment setters and by [read]. *)
Theorem comments_start_with_marker :
  (∀ names, commentsInv (newConfigFile names)) ∧
  (∀ c section key value,
     commentsInv c → commentsInv (fst (setValue c section key value))) ∧
  (∀ c section comments,
     commentsInv c → commentsInv (fst (setSectionComments c section comments))) ∧
  (∀ c section key comments,
     commentsInv c → commentsInv (fst (setKeyComments c section key comments))) ∧
  (∀ LineBreak c input,
     commentsInv c → commentsInv (fst (read LineBreak c input))).
Proof.
  split; [apply commentsInv_new|].
  split; [apply setValue_commentsInv|].
  split; [apply setSectionComments_commentsInv|].
  split; [apply setKeyComments_commentsInv|].
  intros LineBreak c input. apply read_preserves.
  - apply setValue_commentsInv.
  - apply setSectionComments_commentsInv.
  - apply setKeyComments_commentsInv.
Qed.

Lemma comments_start_with_marker_witness :
  commentsInv (fst (setKeyComments (newConfigFile []) "app" "k" "note")).
Proof.
  apply (proj1 (proj2 (proj2 (proj2 comments_start_with_marker)))).
  split.
  - intros s cm H. vm_compute in H. discriminate.
  - intros s key cm H. vm_compute in H. discriminate.
Defined.

(** ** [read], line after line *)

Lemma readLines_app (LineBreak : string) ls1 ls2 st :
  readLines LineBreak st (ls1 ++ ls2) =
  match readLines LineBreak st ls1 with
  | (st1, None) => readLines LineBreak st1 ls2
  | r => r
  end.
Proof.
  revert st. induction ls1 as [|l ls1 IH]; intros st; [done|].
  cbn [app readLines]. destruct (readLine _ _ _); [apply IH|done].
Qed.

(** X13.  [read] stops at the first line that fails: it returns the error
    of that line, and the store holds what the lines before it have set and
    nothing of the lines after it. *)
Theorem read_stops_at_first_error (LineBreak : string) c input ls1 l ls2 st1 e :
  splitLines "" (skipBOM input) = (ls1 ++ l :: ls2)%list →
  readLines LineBreak (initState c) ls1 = (st1, None) →
  readLine LineBreak st1 (TrimSpace l) = inr e →
  read LineBreak c input = (rs_store st1, Some e).
Proof.
  intros Hsplit H1 Hl. unfold read.
  rewrite readLoop_readLines, Hsplit, readLines_app, H1.
  cbn [readLines]. by rewrite Hl.
Qed.

Lemma read_stops_at_first_error_witness :
  read LF (newConfigFile []) ("a=1" ++ LF ++ "oops" ++ LF ++ "b=2") =
  (rs_store (fst (readLines LF (initState (newConfigFile [])) ["a=1" ++ LF])),
   Some (ReadError ERR_COULD_NOT_PARSE "oops")).
Proof.
  apply (read_stops_at_first_error LF (newConfigFile [])
           ("a=1" ++ LF ++ "oops" ++ LF ++ "b=2")
           ["a=1" ++ LF] ("oops" ++ LF) ["b=2"]);
    vm_compute; reflexivity.
Defined.

(** Reading lines that are empty or comments changes the pending block of
    comments only. *)
Lemma readLines_comments (LineBreak : string) ls st :
  Forall (λ l, TrimSpace l = "" ∨ isComment (TrimSpace l) = true) ls →
  ∃ pending,
    readLines LineBreak st ls =
    ({| rs_store := rs_store st; rs_count := rs_count st;
        rs_section := rs_section st; rs_comments := pending |}, None).
Proof.
  revert st. induction ls as [|l ls IH]; intros st Hall.
  - exists (rs_comments st). by destruct st.
  - apply Forall_cons in Hall as [Hl Hall]. cbn [readLines].
    destruct (decide (TrimSpace l = "")) as [->|Hne].
    + rewrite readLine_empty. by apply IH.
    + destruct Hl as [?|Hl]; [done|]. rewrite readLine_comment by done.
      destruct (IH {| rs_store := rs_store st; rs_count := rs_count st;
                      rs_section := rs_section st;
                      rs_comments :=
                        if Nat.eqb (len (rs_comments st)) 0 then TrimSpace l
                        else rs_comments st ++ LineBreak ++ TrimSpace l |} Hall)
        as [pending ->].
      by exists pending.
Qed.

(** X14.  An input all of whose lines are empty or comments is read without
    error and leaves the store as it is: comments that no header and no key
    follows are dropped. *)
Theorem read_comments_only (LineBreak : string) c input :
  Forall (λ l, TrimSpace l = "" ∨ isComment (TrimSpace l) = true)
    (splitLines "" (skipBOM input)) →
  read LineBreak c input = (c, None).
Proof.
  intros Hall. unfold read. rewrite readLoop_readLines.
  by destruct (readLines_comments LineBreak _ (initState c) Hall) as [pending ->].
Qed.

Lemma read_comments_only_witness :
  read LF (newConfigFile []) ("# one" ++ LF ++ LF ++ " ; two") =
  (newConfigFile [], None).
Proof.
  apply (read_comments_only LF (newConfigFile [])).
  repeat constructor; vm_compute; tauto.
Defined.

(** ** A block of comments goes to the header or the key that follows *)

Lemma isComment_app (a b : string) : isComment a = true → isComment (a ++ b) = true.
Proof. by destruct a. Qed.

Lemma isComment_nonempty (a : string) : isComment a = true → a ≠ "".
Proof. by destruct a. Qed.

Lemma fold_comments_marker (LineBreak : string) lines acc :
  isComment acc = true →
  isComment (fold_left (λ acc line,
      if Nat.eqb (len acc) 0 then line else acc ++ LineBreak ++ line)
    lines acc) = true.
Proof.
  revert acc. induction lines as [|x lines IH]; intros acc Hacc; [done|].
  cbn [fold_left]. apply IH.
  pose proof (isComment_nonempty _ Hacc) as Hlen.
  apply len_eqb_0_false in Hlen. rewrite Hlen.
  by apply isComment_app.
Qed.

Lemma joinComments_marker (LineBreak : string) lines :
  lines ≠ [] → Forall (λ x, isComment x = true) lines →
  isComment (joinComments LineBreak lines) = true.
Proof.
  destruct lines as [|x lines]; [done|]. intros _ [Hx _]%Forall_cons.
  unfold joinComments. cbn [fold_left]. by apply fold_comments_marker.
Qed.

Lemma readLines_comment_block (LineBreak : string) cs st :
  Forall (λ l, isComment (TrimSpace l) = true) cs →
  readLines LineBreak st cs =
  ({| rs_store := rs_store st; rs_count := rs_count st;
      rs_section := rs_section st;
      rs_comments :=
        fold_left (λ acc line,
            if Nat.eqb (len acc) 0 then line else acc ++ LineBreak ++ line)
          (map TrimSpace cs) (rs_comments st) |}, None).
Proof.
  revert st. induction cs as [|l cs IH]; intros st Hall.
  - by destruct st.
  - apply Forall_cons in Hall as [Hl Hall]. cbn [readLines].
    rewrite readLine_comment by (by apply isComment_nonempty || done).
    by rewrite IH.
Qed.

(** X15.  Comment lines that precede a key/value line are joined by
    [LineBreak] and stored, as they are, as the comment of the key of that
    line; the block is then empty again. *)
Theorem comment_block_goes_to_key (LineBreak : string) st cs l i key value :
  rs_comments st = "" → rs_section st ≠ "" →
  cs ≠ [] → Forall (λ l, isComment (TrimSpace l) = true) cs →
  TrimSpace l ≠ "" → isComment (TrimSpace l) = false →
  isHeader (TrimSpace l) = false →
  parseKey (TrimSpace l) = Some (i, key) → key ≠ "-" →
  parseValue (TrimSpace (slice_from (i + 1) (TrimSpace l))) = Some value →
  ∃ st',
    readLines LineBreak st (cs ++ [l]) = (st', None) ∧
    rs_comments st' = "" ∧
    keyComments (rs_store st') !! rs_section st ≫= (.!! key) =
      Some (joinComments LineBreak (map TrimSpace cs)).
Proof.
  intros Hpending Hsec Hcs Hall Hne Hc Hh Hk Hkey Hv.
  rewrite readLines_app, readLines_comment_block by done.
  rewrite Hpending. fold (joinComments LineBreak (map TrimSpace cs)).
  assert (isComment (joinComments LineBreak (map TrimSpace cs)) = true) as Hj.
  { apply joinComments_marker; [by destruct cs|]. by apply Forall_map. }
  cbn [readLines]. rewrite readLine_keyValue by done.
  unfold readKeyValue. rewrite Hk.
  apply String.eqb_neq in Hkey as ->. rewrite Hv. cbn [rs_comments rs_section rs_store rs_count].
  pose proof (isComment_nonempty _ Hj) as Hjne.
  assert (Nat.ltb 0 (len (joinComments LineBreak (map TrimSpace cs))) = true) as ->.
  { apply Nat.ltb_lt. destruct (joinComments _ _); [done|]. unfold len. simpl. lia. }
  eexists. split; [reflexivity|]. split; [done|]. cbn [rs_store].
  pose proof (keyComments_set (fst (setValue (rs_store st) (rs_section st) key value))
                (rs_section st) key _ Hjne) as Hl.
  rewrite normSection_nonempty in Hl by done.
  by rewrite Hl, normComments_verbatim.
Qed.

Lemma comment_block_goes_to_key_witness :
  ∃ st',
    readLines LF (initState (newConfigFile [])) (["# one" ++ LF; "; two" ++ LF] ++ ["k=v"])
      = (st', None) ∧
    rs_comments st' = "" ∧
    keyComments (rs_store st') !! "DEFAULT" ≫= (.!! "k") =
      Some ("# one" ++ LF ++ "; two").
Proof.
  apply (comment_block_goes_to_key LF (initState (newConfigFile []))
           ["# one" ++ LF; "; two" ++ LF] "k=v" 1 "k" "v");
    try (vm_compute; reflexivity); try discriminate.
  repeat constructor.
Defined.

(** X16.  Comment lines that precede a header are stored in the same way as
    the comment of its section, and the header makes the section exist: it
    sets the key made of one space to the value made of one space, which
    [getValue] returns. *)
Theorem header_creates_section (LineBreak : string) st cs l :
  rs_comments st = "" →
  Forall (λ l, isComment (TrimSpace l) = true) cs →
  TrimSpace l ≠ "" → isComment (TrimSpace l) = false →
  isHeader (TrimSpace l) = true →
  let name := TrimSpace (slice 1 (len (TrimSpace l) - 1) (TrimSpace l)) in
  ∃ st',
    readLines LineBreak st (cs ++ [l]) = (st', None) ∧
    rs_section st' = name ∧ rs_count st' = 1%Z ∧ rs_comments st' = "" ∧
    (∀ depth : nat, getValue (S depth) (rs_store st') name " " = Some (" ", None)) ∧
    (cs ≠ [] →
     sectionComments (rs_store st') !! normSection name =
       Some (joinComments LineBreak (map TrimSpace cs))).
Proof.
  intros Hpending Hall Hne Hc Hh name.
  rewrite readLines_app, readLines_comment_block by done.
  rewrite Hpending. fold (joinComments LineBreak (map TrimSpace cs)).
  cbn [readLines]. unfold readLine.
  apply len_eqb_0_false in Hne as ->. rewrite Hc, Hh.
  cbn [rs_comments rs_section rs_store rs_count]. fold name.
  assert (¬ hasPlaceholder " ") as Hno by by apply FindString_empty_iff.
  destruct cs as [|c0 cs].
  - cbn [joinComments map fold_left len String.length Nat.ltb Nat.leb].
    eexists. split; [reflexivity|]. repeat split; [|done].
    intros depth. by apply setValue_getValue.
  - assert (isComment (joinComments LineBreak (map TrimSpace (c0 :: cs))) = true)
      as Hj by (apply joinComments_marker; [done|by apply Forall_map]).
    pose proof (isComment_nonempty _ Hj) as Hjne.
    assert (Nat.ltb 0 (len (joinComments LineBreak (map TrimSpace (c0 :: cs)))) = true)
      as ->.
    { apply Nat.ltb_lt. destruct (joinComments _ _); [done|].
      unfold len. simpl. lia. }
    eexists. split; [reflexivity|]. repeat split.
    + intros depth. by apply setValue_getValue.
    + intros _. cbn [rs_store].
      destruct (setValue_comments
                  (fst (setSectionComments (rs_store st) name
                          (joinComments LineBreak (map TrimSpace (c0 :: cs)))))
                  name " " " ") as [-> _].
      rewrite sectionComments_set by done. by rewrite normComments_verbatim.
Qed.

Lemma header_creates_section_witness :
  ∃ st',
    readLines LF (initState (newConfigFile [])) (["# db" ++ LF] ++ ["[db]"])
      = (st', None) ∧
    rs_section st' = "db" ∧ rs_count st' = 1%Z ∧ rs_comments st' = "" ∧
    (∀ depth : nat, getValue (S depth) (rs_store st') "db" " " = Some (" ", None)) ∧
    (["# db" ++ LF] ≠ [] →
     sectionComments (rs_store st') !! normSection "db" = Some "# db").
Proof.
  apply (header_creates_section LF (initState (newConfigFile []))
           ["# db" ++ LF] "[db]");
    try (vm_compute; reflexivity); try discriminate.
  repeat constructor.
Defined.

(** ** A key/value line written without quotes is read back *)

Lemma find_starts_with_none (seqs : list (list nat)) (ch : ascii) (s : string) :
  Forall (λ bs, match bs with
                | b :: _ => Nat.eqb (byteN ch) b = false
                | [] => False
                end) seqs →
  List.find (λ bs, starts_with bs (String ch s)) seqs = None.
Proof.
  induction 1 as [|bs seqs Hbs _ IH]; [done|]. cbn [List.find].
  destruct bs as [|b bs]; [done|]. cbn [starts_with]. by rewrite Hbs.
Qed.

Lemma trim_head_plain (seqs : list (list nat)) (ch : ascii) (s : string) :
  asciiSpace ch = false →
  Forall (λ bs, match bs with
                | b :: _ => Nat.eqb (byteN ch) b = false
                | [] => False
                end) seqs →
  trim_head seqs 0 (String ch s) = String ch s.
Proof.
  intros Hsp Hseqs. cbn [trim_head]. unfold space_width.
  by rewrite Hsp, find_starts_with_none.
Qed.

Lemma plainByte_heads (ch : ascii) :
  plainByte ch = true →
  asciiSpace ch = false ∧
  Forall (λ bs, match bs with
                | b :: _ => Nat.eqb (byteN ch) b = false
                | [] => False
                end) wideSpaces ∧
  Forall (λ bs, match bs with
                | b :: _ => Nat.eqb (byteN ch) b = false
                | [] => False
                end) (map (@rev nat) wideSpaces).
Proof.
  unfold plainByte. intros [Hsp Hlt]%andb_prop.
  apply negb_true_iff in Hsp. apply Nat.ltb_lt in Hlt.
  split; [done|].
  split; unfold wideSpaces; cbn [map rev app];
    repeat constructor; apply Nat.eqb_neq; lia.
Qed.

Lemma TrimSpace_plainEnds (s : string) : plainEnds s = true → TrimSpace s = s.
Proof.
  destruct s as [|first rest] eqn:Hs; [done|]. rewrite <- Hs.
  unfold plainEnds. rewrite Hs at 1. intros [Hf Hl]%andb_prop.
  destruct (rev_string s) as [|last init] eqn:Hrev; [done|].
  destruct (plainByte_heads first Hf) as (Hf1 & Hf2 & _).
  destruct (plainByte_heads last Hl) as (Hl1 & _ & Hl3).
  unfold TrimSpace, TrimLeftSpace, TrimRightSpace.
  rewrite Hs at 1. rewrite trim_head_plain, <- Hs by done.
  rewrite Hrev, trim_head_plain, <- Hrev by done.
  apply rev_string_involutive.
Qed.

Lemma firstByteIn_app (s t chars : string) :
  s ≠ "" → firstByteIn (s ++ t) chars = firstByteIn s chars.
Proof. by destruct s. Qed.

Lemma mem_byte_weaken (ch x : ascii) (chars : string) :
  mem_byte ch (String x chars) = false → mem_byte ch chars = false.
Proof. cbn [mem_byte]. by intros [_ ?]%orb_false_elim. Qed.

Lemma parseKey_plain (key value : string) (sep : ascii) :
  plainKey key = true → mem_byte sep "=:" = true →
  parseKey (key ++ String sep value) = Some (len key, key).
Proof.
  unfold plainKey.
  intros [[[[Hne _]%andb_prop Hends]%andb_prop Hdelim]%andb_prop Hfirst]%andb_prop Hsep.
  apply negb_true_iff in Hne, Hdelim, Hfirst. apply String.eqb_neq in Hne.
  destruct key as [|first rest] eqn:Hkey; [done|]. rewrite <- Hkey in *.
  assert (keyQuoteOf (key ++ String sep value) = "") as Hq.
  { unfold keyQuoteOf. rewrite Hkey, app_String. cbn [byte_at String.get].
    rewrite Hkey in Hfirst. cbn [firstByteIn mem_byte] in Hfirst.
    apply orb_false_elim in Hfirst as [H1 Hfirst].
    apply orb_false_elim in Hfirst as [H2 _].
    by rewrite H1, H2. }
  unfold parseKey. rewrite Hq. cbn [String.eqb negb].
  assert (IndexAny (key ++ String sep value) "=:" = Some (len key)) as ->.
  { apply IndexAny_Some. exists sep, value. by rewrite slice_to_app_len. }
  destruct (len key) as [|n] eqn:Hn; [by rewrite Hkey in Hn|].
  rewrite <- Hn.
  unfold slice. rewrite Nat.sub_0_r. cbn [slice_from].
  by rewrite slice_to_app_len, TrimSpace_plainEnds.
Qed.

Lemma parseValue_plain (value : string) :
  plainValue value = true → parseValue value = Some value.
Proof.
  unfold plainValue. intros [Hends Hfirst]%andb_prop.
  apply negb_true_iff in Hfirst.
  assert (valQuoteOf value = "") as Hq.
  { unfold valQuoteOf. destruct value as [|ch value]; [done|].
    cbn [firstByteIn mem_byte] in Hfirst.
    apply orb_false_elim in Hfirst as [H1 Hfirst].
    apply orb_false_elim in Hfirst as [H2 _].
    assert (String.eqb (if Nat.leb 2 (len (String ch value))
                        then slice 0 1 (String ch value) else "") backquote = false)
      as ->.
    { destruct (Nat.leb 2 _); [|done]. cbn. by rewrite H2. }
    assert (String.eqb (slice 0 3 (String ch value)) quote3 = false) as ->.
    { cbn. by rewrite H1. }
    by rewrite andb_false_r. }
  unfold parseValue. rewrite Hq. cbn [String.eqb negb slice_from].
  by rewrite TrimSpace_plainEnds.
Qed.

Lemma isHeader_first (ch : ascii) (rest : string) :
  Ascii.eqb ch "[" = false → isHeader (String ch rest) = false.
Proof.
  intros H. unfold isHeader. cbn [byte_at String.get]. rewrite H.
  by destruct (match _ with 0 => _ | S _ => _ end).
Qed.

Lemma isComment_first (ch : ascii) (rest : string) :
  Ascii.eqb ch "#" = false → Ascii.eqb ch ";" = false →
  isComment (String ch rest) = false.
Proof.
  intros H1 H2. unfold isComment. cbn [byte_at String.get]. by rewrite H1, H2.
Qed.

(** X17.  A line made of a plain key, a delimiter ([=] or [:]) and a plain
    value, read in a section, stores the value under the key: the key and the
    value are read back as they were written, and the counter and the
    current section stay as they are. *)
Theorem plain_line_round_trip (LineBreak : string) st key value (sep : ascii) :
  rs_section st ≠ "" →
  plainKey key = true → plainValue value = true → mem_byte sep "=:" = true →
  ∃ st',
    readLine LineBreak st (key ++ String sep value) = inl st' ∧
    rs_section st' = rs_section st ∧ rs_count st' = rs_count st ∧
    data (rs_store st') !! rs_section st ≫= (.!! key) = Some value ∧
    (¬ hasPlaceholder value →
     ∀ depth : nat,
       getValue (S depth) (rs_store st') (rs_section st) key = Some (value, None)).
Proof.
  intros Hsec Hkey Hvalue Hsep.
  pose proof (parseKey_plain key value sep Hkey Hsep) as Hpk.
  unfold plainKey in Hkey.
  apply andb_prop in Hkey as [[[[Hne Hdash]%andb_prop Hends]%andb_prop Hdelim]%andb_prop Hfirst].
  apply negb_true_iff in Hne, Hdash, Hfirst. apply String.eqb_neq in Hne.
  set (line := key ++ String sep value) in *.
  assert (line ≠ "") as Hline by (subst line; by destruct key).
  assert (firstByteIn line (String dquote "`#;[") = false) as Hfl.
  { subst line. by rewrite firstByteIn_app. }
  destruct line as [|ch rest] eqn:Hl; [done|]. rewrite <- Hl in *.
  rewrite Hl in Hfl. cbn [firstByteIn] in Hfl.
  do 2 apply mem_byte_weaken in Hfl. cbn [mem_byte] in Hfl.
  apply orb_false_elim in Hfl as [H1 Hfl].
  apply orb_false_elim in Hfl as [H2 Hfl].
  apply orb_false_elim in Hfl as [H3 _].
  assert (isComment line = false) as Hc.
  { rewrite Hl. by apply isComment_first. }
  assert (isHeader line = false) as Hh.
  { rewrite Hl. by apply isHeader_first. }
  assert (parseValue (TrimSpace (slice_from (len key + 1) line)) = Some value) as Hpv.
  { subst line.
    replace (len key + 1)%nat with (len (key ++ String sep "")) at 1
      by (rewrite len_app; unfold len; simpl; lia).
    change (key ++ String sep value) with (key ++ String sep "" ++ value) in Hl |- *.
    rewrite <- app_assoc_s, slice_from_app_len.
    unfold plainValue in Hvalue. apply andb_prop in Hvalue as [Hve Hvf].
    rewrite TrimSpace_plainEnds by done.
    apply parseValue_plain. unfold plainValue. by rewrite Hve, Hvf. }
  rewrite readLine_keyValue by done.
  destruct (readKeyValue_ok st line (len key) key value Hpk Hpv)
    as (st' & Hst' & Hs' & Hc' & Hd').
  rewrite Hdash in Hc', Hd'.
  exists st'. split; [done|]. split; [done|]. split; [done|].
  pose proof (setValue_lookup (rs_store st) (rs_section st) key value Hne) as Hlook.
  rewrite normSection_nonempty in Hlook by done.
  split; [by rewrite Hd'|].
  intros Hno depth.
  rewrite (getValue_data_only _ (fst (setValue (rs_store st) (rs_section st) key value)))
    by done.
  by apply setValue_getValue.
Qed.

Lemma plain_line_round_trip_witness :
  ∃ st',
    readLine LF (initState (newConfigFile [])) ("name" ++ String "=" "a b") = inl st' ∧
    rs_section st' = "DEFAULT" ∧ rs_count st' = 1%Z ∧
    data (rs_store st') !! "DEFAULT" ≫= (.!! "name") = Some "a b" ∧
    (¬ hasPlaceholder "a b" →
     ∀ depth : nat,
       getValue (S depth) (rs_store st') "DEFAULT" "name" = Some ("a b", None)).
Proof.
  apply (plain_line_round_trip LF (initState (newConfigFile [])) "name" "a b" "=");
    try (vm_compute; reflexivity).
  discriminate.
Defined.

(** ** The [Must] accessors without a default *)

Lemma getValue_error_empty (depth : nat) c section key v e :
  getValue depth c section key = Some (v, Some e) → v = "".
Proof.
  revert section. induction depth as [|d IH]; intros section; [done|].
  rewrite getValue_S.
  destruct (data c !! normSection section) as [sec|]; [|by intros [= <- _]].
  destruct (sec !! key) as [value|].
  - by intros ?%substLoop_no_error.
  - destruct (LastIndex _ _); [apply IH|by intros [= <- _]].
Qed.

Lemma ParseBool_true (str : string) :
  ParseBool str = (true, None) ↔ str ∈ ["1"; "t"; "T"; "TRUE"; "true"; "True"].
Proof.
  unfold ParseBool.
  destruct (existsb (String.eqb str) ["1"; "t"; "T"; "TRUE"; "true"; "True"]) eqn:H.
  - split; [|done]. intros _. apply existsb_exists in H as (x & Hin & Hx).
    apply String.eqb_eq in Hx as <-. by apply list_elem_of_In in Hin.
  - split; [intros Hp; by destruct (existsb _ ["0"; "f"; "F"; "FALSE"; "false"; "False"])|].
    intros Hin.
    assert (existsb (String.eqb str) ["1"; "t"; "T"; "TRUE"; "true"; "True"] = true)
      as Ht; [|congruence].
    apply existsb_exists. exists str. split; [by apply list_elem_of_In in Hin|].
    apply String.eqb_refl.
Qed.

Lemma ParseBool_error (str : string) b e :
  ParseBool str = (b, Some e) → b = false.
Proof.
  unfold ParseBool.
  destruct (existsb _ ["1"; "t"; "T"; "TRUE"; "true"; "True"]); [done|].
  by destruct (existsb _ ["0"; "f"; "F"; "FALSE"; "false"; "False"]);
    intros [= <- _].
Qed.

(** X18.  Without a default, [MustValue] returns the empty string when the
    lookup returns an error, and [MustBool] returns false when the lookup or
    the conversion returns an error; [MustBool] returns true exactly when
    the lookup returns, without error, one of [1], [t], [T], [TRUE],
    [true], [True]. *)
Theorem must_without_default cf (depth : nat) section key :
  (∀ v e, getValue depth cf section key = Some (v, Some e) →
          MustValue cf depth section key [] = Some "") ∧
  (∀ b e, Bool cf depth section key = Some (b, Some e) →
          MustBool cf depth section key [] = Some false) ∧
  (MustBool cf depth section key [] = Some true ↔
   ∃ v, getValue depth cf section key = Some (v, None) ∧
        v ∈ ["1"; "t"; "T"; "TRUE"; "true"; "True"]).
Proof.
  split; [|split].
  - intros v e H. unfold MustValue. rewrite H.
    by apply getValue_error_empty in H as ->.
  - intros b e. unfold MustBool, Bool, mustTyped, typedValue.
    destruct (getValue depth cf section key) as [[v [err|]]|]; [| |done].
    + by intros [= <- _].
    + destruct (ParseBool v) as [b' e'] eqn:Hb. intros [= -> ->].
      by apply ParseBool_error in Hb as ->.
  - unfold MustBool, mustTyped, typedValue.
    destruct (getValue depth cf section key) as [[v [err|]]|].
    + split; [done|]. by intros (v' & [= _ ?] & _).
    + destruct (ParseBool v) as [b e] eqn:Hb. split.
      * intros [= ->]. exists v. split; [done|]. apply ParseBool_true.
        destruct e as [e|]; [|done]. by apply ParseBool_error in Hb.
      * intros (v' & [= <-] & Hin). apply ParseBool_true in Hin.
        rewrite Hin in Hb. by injection Hb as <- <-.
    + split; [done|]. by intros (v' & ? & _).
Qed.

Lemma must_without_default_witness :
  MustValue dottedStore 1 "nosuch" "host" [] = Some "".
Proof.
  apply (proj1 (must_without_default dottedStore 1 "nosuch" "host")
           "" (GetError ERR_SECTION_NOT_FOUND "nosuch")).
  reflexivity.
Defined.

(** ** The order of two [setValue] *)

(** X19.  Two calls of [setValue] for different keys, or for sections that
    differ, give the same data in either order; so [getValue] returns the
    same in either order.  (The ordered lists do depend on the order.) *)
Theorem setValue_order c s1 k1 v1 s2 k2 v2 :
  (normSection s1, k1) ≠ (normSection s2, k2) →
  data (fst (setValue (fst (setValue c s1 k1 v1)) s2 k2 v2)) =
  data (fst (setValue (fst (setValue c s2 k2 v2)) s1 k1 v1)) ∧
  ∀ (depth : nat) section key,
    getValue depth (fst (setValue (fst (setValue c s1 k1 v1)) s2 k2 v2)) section key =
    getValue depth (fst (setValue (fst (setValue c s2 k2 v2)) s1 k1 v1)) section key.
Proof.
  intros Hne.
  assert (data (fst (setValue (fst (setValue c s1 k1 v1)) s2 k2 v2)) =
          data (fst (setValue (fst (setValue c s2 k2 v2)) s1 k1 v1))) as Hd.
  { destruct (decide (k1 = "")) as [->|Hk1]; [done|].
    destruct (decide (k2 = "")) as [->|Hk2]; [done|].
    rewrite !setValue_data by done.
    destruct (decide (normSection s1 = normSection s2)) as [Hs|Hs].
    - rewrite <- Hs in *. rewrite !lookup_insert_eq. cbn [default from_option].
      unfold id. rewrite !insert_insert_eq. f_equal.
      apply insert_insert_ne. congruence.
    - rewrite !lookup_insert_ne by done. by apply insert_insert_ne. }
  split; [done|]. intros depth section key. by apply getValue_data_only.
Qed.

Lemma setValue_order_witness :
  data (fst (setValue (fst (setValue (newConfigFile []) "a" "k" "1")) "b" "k" "2")) =
  data (fst (setValue (fst (setValue (newConfigFile []) "b" "k" "2")) "a" "k" "1")).
Proof.
  apply (setValue_order (newConfigFile []) "a" "k" "1" "b" "k" "2").
  discriminate.
Defined.

(** ** Keys and values between backticks *)

Lemma Index_byte_app (q : ascii) (pre post : string) :
  mem_byte q pre = false →
  Index (pre ++ String q post) (String q "") = Some (len pre).
Proof.
  induction pre as [|ch pre IH]; cbn [mem_byte].
  - intros _. rewrite app_empty_l. cbn [Index]. rewrite HasPrefix_byte.
    by rewrite Ascii.eqb_refl.
  - intros [Hch Hpre]%orb_false_elim. rewrite app_String. cbn [Index].
    rewrite HasPrefix_byte, Hch, IH by done. done.
Qed.

Lemma parseKey_backquoted (key rest : string) (sep : ascii) :
  mem_byte "`" key = false → mem_byte sep "=:" = true →
  parseKey ("`" ++ key ++ "`" ++ String sep rest) = Some (len key + 2, key)%nat.
Proof.
  intros Hkey Hsep.
  change ("`" ++ key ++ "`" ++ String sep rest)
    with (String "`" (key ++ String "`" (String sep rest))).
  unfold parseKey.
  change (keyQuoteOf (String "`" (key ++ String "`" (String sep rest))))
    with backquote.
  cbn [String.eqb Ascii.eqb Bool.eqb negb backquote len String.length slice_from].
  rewrite Index_byte_app by done.
  replace (len key + 1)%nat with (S (len key)) by lia.
  cbn [slice_from]. rewrite slice_from_app_len.
  cbn [IndexAny]. change (mem_byte "`" "=:") with false. cbv iota.
  rewrite Hsep. cbn [fmap option_fmap option_map].
  replace (1 + S (len key))%nat with (len key + 2)%nat by lia.
  unfold slice. cbn [slice_from].
  replace (S (len key) - 1)%nat with (len key) by lia.
  by rewrite slice_to_app_len.
Qed.

Lemma parseValue_backquoted (value : string) :
  parseValue ("`" ++ value ++ "`") = Some value.
Proof.
  change ("`" ++ value ++ "`") with (String "`" (value ++ "`")).
  unfold parseValue.
  assert (valQuoteOf (String "`" (value ++ "`")) = backquote) as ->.
  { unfold valQuoteOf.
    assert (Nat.leb 2 (len (String "`" (value ++ "`"))) = true) as ->.
    { apply Nat.leb_le. unfold len. cbn [String.length].
      pose proof (len_app value "`") as H. unfold len in H. rewrite H. simpl. lia. }
    done. }
  cbn [String.eqb Ascii.eqb Bool.eqb negb backquote len String.length slice_from].
  change (value ++ "`") with (value ++ String "`" "").
  rewrite LastIndex_byte_app by done.
  unfold slice. cbn [slice_from].
  replace (len value + 1 - 1)%nat with (len value) by lia.
  by rewrite slice_to_app_len.
Qed.

Lemma plainEnds_backquoted (value : string) :
  plainEnds ("`" ++ value ++ "`") = true.
Proof.
  change ("`" ++ value ++ "`") with (String "`" (value ++ "`")).
  unfold plainEnds.
  change (String "`" (value ++ "`")) with (("`" ++ value) ++ "`").
  by rewrite rev_string_app.
Qed.

(** X20.  A line made of a key between backticks, a delimiter ([=] or [:])
    and a value between backticks, read while the current section name is
    not empty, where the key holds no backtick and is neither empty nor [-]:
    the line is read without error, the value is stored under the key in
    the current section, both as they are written (white space, [=] and [:]
    of the key are kept; the value may hold any byte, backticks too), and
    the counter and the current section are left as they are. *)
Theorem backquoted_line_round_trip (LineBreak : string) st key value (sep : ascii) :
  rs_section st ≠ "" →
  key ≠ "" → key ≠ "-" → mem_byte "`" key = false → mem_byte sep "=:" = true →
  ∃ st',
    readLine LineBreak st ("`" ++ key ++ "`" ++ String sep ("`" ++ value ++ "`"))
      = inl st' ∧
    rs_section st' = rs_section st ∧ rs_count st' = rs_count st ∧
    data (rs_store st') !! rs_section st ≫= (.!! key) = Some value.
Proof.
  intros Hsec Hne Hdash Hkey Hsep.
  pose proof (parseKey_backquoted key ("`" ++ value ++ "`") sep Hkey Hsep) as Hpk.
  set (line := "`" ++ key ++ "`" ++ String sep ("`" ++ value ++ "`")) in *.
  assert (parseValue (TrimSpace (slice_from (len key + 2 + 1) line)) = Some value)
    as Hpv.
  { subst line.
    change ("`" ++ key ++ "`" ++ String sep ("`" ++ value ++ "`"))
      with (String "`" (key ++ String "`" (String sep ("`" ++ value ++ "`")))).
    replace (len key + 2 + 1)%nat with (S (len (key ++ String "`" (String sep ""))))
      by (rewrite len_app; unfold len; simpl; lia).
    cbn [slice_from].
    change (key ++ String "`" (String sep ("`" ++ value ++ "`")))
      with (key ++ String "`" (String sep "") ++ ("`" ++ value ++ "`")).
    rewrite <- app_assoc_s, slice_from_app_len.
    rewrite TrimSpace_plainEnds by apply plainEnds_backquoted.
    apply parseValue_backquoted. }
  assert (readLine LineBreak st line = readKeyValue st line) as ->.
  { apply readLine_keyValue; [done|done| |done].
    subst line. by apply isHeader_first. }
  destruct (readKeyValue_ok st line _ key value Hpk Hpv)
    as (st' & Hst' & Hs' & Hc' & Hd').
  apply String.eqb_neq in Hdash. rewrite Hdash in Hc', Hd'.
  exists st'. split; [done|]. split; [done|]. split; [done|].
  pose proof (setValue_lookup (rs_store st) (rs_section st) key value Hne) as Hlook.
  rewrite normSection_nonempty in Hlook by done.
  by rewrite Hd'.
Qed.

Lemma backquoted_line_round_trip_witness :
  ∃ st',
    readLine LF (initState (newConfigFile []))
      ("`" ++ " a=b " ++ "`" ++ String ":" ("`" ++ "  x ` y " ++ "`")) = inl st' ∧
    rs_section st' = "DEFAULT" ∧ rs_count st' = 1%Z ∧
    data (rs_store st') !! "DEFAULT" ≫= (.!! " a=b ") = Some "  x ` y ".
Proof.
  apply (backquoted_line_round_trip LF (initState (newConfigFile []))
           " a=b " "  x ` y " ":");
    try (vm_compute; reflexivity); discriminate.
Defined.

(** ** Loading files *)

Section LoadProperties.

Variable LineBreak : string.
Variable openFile : string → option string.

Lemma loadFile_preserves (P : ConfigFile → Prop) c name :
  (∀ c input, P c → P (fst (read LineBreak c input))) →
  P c → P (fst (loadFile LineBreak openFile c name)).
Proof.
  intros Hread HP. unfold loadFile. destruct (openFile name) as [content|]; [|done].
  specialize (Hread c content HP). by destruct (read LineBreak c content).
Qed.

Lemma loadFiles_preserves (P : ConfigFile → Prop) names c :
  (∀ c input, P c → P (fst (read LineBreak c input))) →
  P c → P (fst (loadFiles LineBreak openFile c names)).
Proof.
  intros Hread. revert c. induction names as [|name names IH]; intros c HP; [done|].
  cbn [loadFiles].
  pose proof (loadFile_preserves P c name Hread HP) as H1.
  destruct (loadFile LineBreak openFile c name) as [c' [e|]]; [done|].
  by apply IH.
Qed.

Lemma loadFiles_open_error names c :
  (∃ name, name ∈ names ∧ openFile name = None) →
  is_Some (snd (loadFiles LineBreak openFile c names)).
Proof.
  revert c. induction names as [|name names IH]; intros c (n & Hin & Hn).
  - by apply elem_of_nil in Hin.
  - cbn [loadFiles].
    destruct (loadFile LineBreak openFile c name) as [c' [e|]] eqn:Hl; [by eexists|].
    apply IH. exists n. split; [|done].
    apply elem_of_cons in Hin as [->|Hin]; [|done].
    unfold loadFile in Hl. by rewrite Hn in Hl.
Qed.

(** X21.  [LoadConfigFile] returns a store exactly when it returns no
    error.  The store it returns records the names of the files and
    satisfies the three invariants: its ordered lists agree with its data and
    its comments start with [#] or [;].  When one of the files cannot be
    opened, no store is returned. *)
Theorem LoadConfigFile_result fileName moreFiles :
  (∀ c err,
     LoadConfigFile LineBreak openFile fileName moreFiles = (Some c, err) →
     err = None ∧ fileNames c = fileName :: moreFiles ∧
     keyListInv c ∧ sectionListInv c ∧ commentsInv c) ∧
  (∀ err,
     LoadConfigFile LineBreak openFile fileName moreFiles = (None, err) →
     is_Some err) ∧
  ((∃ name, name ∈ fileName :: moreFiles ∧ openFile name = None) →
   fst (LoadConfigFile LineBreak openFile fileName moreFiles) = None).
Proof.
  unfold LoadConfigFile. cbv zeta.
  set (c0 := newConfigFile (fileName :: moreFiles)).
  split; [|split].
  - intros c err H.
    pose proof (loadFiles_preserves
                  (λ c, fileNames c = fileName :: moreFiles ∧
                        keyListInv c ∧ sectionListInv c ∧ commentsInv c)
                  (fileName :: moreFiles) c0) as Hinv.
    destruct (loadFiles LineBreak openFile c0 (fileName :: moreFiles))
      as [c' [e|]]; [done|].
    injection H as <- <-. split; [done|]. apply Hinv.
    + intros c input (Hf & Hk & Hs & Hc). split; [|split; [|split]].
      * apply (read_preserves (λ c', fileNames c' = fileName :: moreFiles));
          [| | |done].
        -- intros c1 section key value <-. unfold setValue.
           destruct (Nat.eqb (len key) 0); [done|].
           destruct (data c1 !! normSection section); cbv zeta;
             by destruct (bool_decide _).
        -- intros c1 section comments <-. unfold setSectionComments.
           by destruct (Nat.eqb (len comments) 0).
        -- intros c1 section key comments <-. unfold setKeyComments.
           by destruct (keyComments c1 !! normSection section),
             (Nat.eqb (len comments) 0).
      * by apply read_keyListInv.
      * apply read_preserves; [apply setValue_sectionListInv| | |done].
        -- intros c1 section comments.
           destruct (setSectionComments_fields c1 section comments)
             as (? & _ & ? & _).
           by apply sectionListInv_same.
        -- intros c1 section key comments.
           destruct (setKeyComments_fields c1 section key comments)
             as (? & _ & ? & _).
           by apply sectionListInv_same.
      * apply read_preserves;
          [apply setValue_commentsInv|apply setSectionComments_commentsInv
          |apply setKeyComments_commentsInv|done].
    + split; [done|]. split; [apply keyListInv_new|].
      split; [apply sectionListInv_new|apply commentsInv_new].
  - intros err H.
    destruct (loadFiles LineBreak openFile c0 (fileName :: moreFiles))
      as [c' [e|]]; [|done].
    injection H as <-. by eexists.
  - intros Hopen.
    destruct (loadFiles_open_error (fileName :: moreFiles) c0 Hopen) as [e He].
    destruct (loadFiles LineBreak openFile c0 (fileName :: moreFiles))
      as [c' [e'|]]; [done|]. done.
Qed.

End LoadProperties.

Lemma LoadConfigFile_result_witness :
  fst (LoadConfigFile LF (λ name, if String.eqb name "app.conf" then Some "k=v" else None)
         "app.conf" ["more.conf"]) = None.
Proof.
  apply (proj2 (proj2 (LoadConfigFile_result LF
           (λ name, if String.eqb name "app.conf" then Some "k=v" else None)
           "app.conf" ["more.conf"]))).
  exists "more.conf". split; [|reflexivity].
  apply list_elem_of_further, list_elem_of_here.
Defined.

(** ** Reading one plain line *)

Lemma splitLines_single (cur s : string) :
  mem_byte newline s = false → splitLines cur s = [cur ++ s].
Proof.
  revert cur. induction s as [|ch s IH]; intros cur; cbn [mem_byte splitLines].
  - intros _. by rewrite app_empty_r.
  - intros [Hch Hs]%orb_false_elim. rewrite Ascii.eqb_sym, Hch.
    rewrite IH by done. by rewrite app_assoc_s.
Qed.

Lemma skipBOM_plain (ch : ascii) (s : string) :
  plainByte ch = true → skipBOM (String ch s) = String ch s.
Proof.
  unfold plainByte. intros [_ Hlt%Nat.ltb_lt]%andb_prop.
  unfold skipBOM. cbn [starts_with].
  assert (Nat.eqb (byteN ch) 239 = false) as -> by (apply Nat.eqb_neq; lia).
  done.
Qed.

Lemma plainEnds_first (ch : ascii) (s : string) :
  plainEnds (String ch s) = true → plainByte ch = true.
Proof. unfold plainEnds. by intros [? _]%andb_prop. Qed.

Lemma plainEnds_line (key value : string) (sep : ascii) :
  key ≠ "" → plainEnds key = true → plainEnds value = true →
  mem_byte sep "=:" = true →
  plainEnds (key ++ String sep value) = true.
Proof.
  intros Hne Hkey Hvalue Hsep.
  assert (plainByte sep = true) as Hps.
  { cbn [mem_byte] in Hsep. rewrite orb_false_r in Hsep.
    apply orb_prop in Hsep as [->%Ascii.eqb_eq| ->%Ascii.eqb_eq]; reflexivity. }
  destruct key as [|first rest]; [done|].
  rewrite app_String. unfold plainEnds.
  rewrite (plainEnds_first _ _ Hkey). cbn [andb].
  change (String first (rest ++ String sep value))
    with (String first rest ++ String sep "" ++ value).
  rewrite !rev_string_app.
  change (rev_string (String sep "")) with (String sep "").
  destruct value as [|v0 value].
  - change (rev_string "") with "". by rewrite app_empty_l, app_String.
  - unfold plainEnds in Hvalue. apply andb_prop in Hvalue as [_ Hlast].
    destruct (rev_string (String v0 value)) as [|last init]; [done|].
    by rewrite !app_String.
Qed.

Lemma parseValue_after_plain (key value : string) (sep : ascii) :
  plainValue value = true →
  parseValue (TrimSpace (slice_from (len key + 1) (key ++ String sep value)))
  = Some value.
Proof.
  intros Hvalue.
  replace (len key + 1)%nat with (len (key ++ String sep ""))
    by (rewrite len_app; unfold len; simpl; lia).
  change (key ++ String sep value) with (key ++ String sep "" ++ value).
  rewrite <- app_assoc_s, slice_from_app_len.
  unfold plainValue in Hvalue. apply andb_prop in Hvalue as [Hve Hvf].
  rewrite TrimSpace_plainEnds by done.
  apply parseValue_plain. unfold plainValue. by rewrite Hve, Hvf.
Qed.

(** X22.  An input made of one line, a plain key, a delimiter and a plain
    value, with no line feed in it, is read without error into the DEFAULT
    section: [read] does what [setValue("DEFAULT", key, value)] does, on any
    store.  Read after another input, it overrides the value that this input
    gave to the key. *)
Theorem read_plain_line (LineBreak : string) c key value (sep : ascii) :
  plainKey key = true → plainValue value = true → mem_byte sep "=:" = true →
  mem_byte newline key = false → mem_byte newline value = false →
  read LineBreak c (key ++ String sep value) =
    (fst (setValue c DEFAULT_SECTION key value), None) ∧
  (¬ hasPlaceholder value →
   ∀ (depth : nat) input,
     getValue (S depth)
       (fst (read LineBreak (fst (read LineBreak c input)) (key ++ String sep value)))
       DEFAULT_SECTION key = Some (value, None)).
Proof.
  intros Hkey Hvalue Hsep Hnk Hnv.
  pose proof (parseKey_plain key value sep Hkey Hsep) as Hpk.
  pose proof (parseValue_after_plain key value sep Hvalue) as Hpv.
  unfold plainKey in Hkey.
  apply andb_prop in Hkey as [[[[Hne Hdash]%andb_prop Hends]%andb_prop Hdelim]%andb_prop Hfirst].
  apply negb_true_iff in Hne, Hdash, Hfirst. apply String.eqb_neq in Hne.
  assert (plainEnds (key ++ String sep value) = true) as Hpl.
  { apply plainEnds_line; try done. unfold plainValue in Hvalue.
    by apply andb_prop in Hvalue as [? _]. }
  assert (mem_byte newline (key ++ String sep value) = false) as Hnl.
  { rewrite mem_byte_app, Hnk. cbn [mem_byte orb]. rewrite Hnv, orb_false_r.
    cbn [mem_byte] in Hsep. rewrite orb_false_r in Hsep.
    by apply orb_prop in Hsep as [->%Ascii.eqb_eq| ->%Ascii.eqb_eq]. }
  assert (firstByteIn (key ++ String sep value) (String dquote "`#;[") = false) as Hfl
    by by rewrite firstByteIn_app.
  assert (∀ c, read LineBreak c (key ++ String sep value) =
               (fst (setValue c DEFAULT_SECTION key value), None)) as Hread.
  { intros c0. unfold read. set (line := key ++ String sep value) in *.
    destruct line as [|ch rest] eqn:Hl; [by destruct key|]. rewrite <- Hl in *.
    rewrite Hl in Hfl. cbn [firstByteIn] in Hfl.
    do 2 apply mem_byte_weaken in Hfl. cbn [mem_byte] in Hfl.
    apply orb_false_elim in Hfl as [H1 Hfl].
    apply orb_false_elim in Hfl as [H2 Hfl].
    apply orb_false_elim in Hfl as [H3 _].
    assert (skipBOM line = line) as ->.
    { rewrite Hl. apply skipBOM_plain. rewrite Hl in Hpl.
      by apply plainEnds_first in Hpl. }
    rewrite readLoop_readLines, splitLines_single, app_empty_l by done.
    cbn [readLines]. rewrite TrimSpace_plainEnds by done.
    rewrite readLine_keyValue;
      [|by rewrite Hl|rewrite Hl; by apply isComment_first
       |rewrite Hl; by apply isHeader_first|done].
    unfold readKeyValue. rewrite Hpk, Hdash, Hpv. done. }
  split; [apply Hread|].
  intros Hno depth input. rewrite Hread. by apply setValue_getValue.
Qed.

Lemma read_plain_line_witness :
  read LF (newConfigFile []) ("name" ++ String "=" "override") =
  (fst (setValue (newConfigFile []) DEFAULT_SECTION "name" "override"), None).
Proof.
  apply (read_plain_line LF (newConfigFile []) "name" "override" "=");
    vm_compute; reflexivity.
Defined.

(** ** A line feed at the end of the input *)

Lemma starts_with_length (bs : list nat) (s : string) :
  starts_with bs s = true → (length bs ≤ len s)%nat.
Proof.
  revert s. induction bs as [|b bs IH]; intros s; [simpl; lia|].
  destruct s as [|ch s]; [done|]. cbn [starts_with].
  intros [_ H]%andb_prop. apply IH in H. unfold len in *. simpl. lia.
Qed.

Lemma starts_with_app (bs : list nat) (s t : string) :
  s ≠ "" → Forall (λ b, b ≠ 10) bs →
  starts_with bs (s ++ String newline t) = starts_with bs s.
Proof.
  intros Hs Hbs. revert s Hs. induction Hbs as [|b bs Hb Hbs IH]; intros s Hs.
  - by destruct s.
  - destruct s as [|ch s]; [done|]. rewrite app_String. cbn [starts_with].
    destruct (decide (s = "")) as [->|Hne]; [|by rewrite IH].
    rewrite app_empty_l. destruct Hbs as [|b' bs' Hb' _]; [done|].
    cbn [starts_with].
    assert (Nat.eqb (byteN newline) b' = false) as ->; [|done].
    apply Nat.eqb_neq. by intros <-.
Qed.

Lemma find_starts_with_app (seqs : list (list nat)) (s t : string) :
  s ≠ "" → Forall (Forall (λ b, b ≠ 10)) seqs →
  List.find (λ bs, starts_with bs (s ++ String newline t)) seqs =
  List.find (λ bs, starts_with bs s) seqs.
Proof.
  intros Hs. induction 1 as [|bs seqs Hbs _ IH]; [done|].
  cbn [List.find]. by rewrite starts_with_app, IH.
Qed.

Lemma space_width_app (seqs : list (list nat)) (s t : string) :
  s ≠ "" → Forall (Forall (λ b, b ≠ 10)) seqs →
  space_width seqs (s ++ String newline t) = space_width seqs s.
Proof.
  intros Hs Hseqs. pose proof (find_starts_with_app seqs s t Hs Hseqs) as Hf.
  destruct s as [|ch s']; [done|]. unfold space_width.
  rewrite app_String. rewrite app_String in Hf. by rewrite Hf.
Qed.

Lemma space_width_le (seqs : list (list nat)) (s : string) :
  (space_width seqs s ≤ len s)%nat.
Proof.
  destruct s as [|ch s]; [done|]. unfold space_width.
  destruct (asciiSpace ch); [unfold len; simpl; lia|].
  destruct (List.find _ seqs) as [bs|] eqn:Hf; [|lia].
  apply List.find_some in Hf as [_ Hf]. by apply starts_with_length.
Qed.

Lemma trim_head_newline (seqs : list (list nat)) (s : string) (k : nat) :
  Forall (Forall (λ b, b ≠ 10)) seqs → (k ≤ len s)%nat →
  trim_head seqs k (s ++ String newline "") =
  match trim_head seqs k s with
  | EmptyString => EmptyString
  | r => r ++ String newline ""
  end.
Proof.
  intros Hseqs. revert k. induction s as [|ch s IH]; intros k Hk.
  - destruct k; [done|]. unfold len in Hk. simpl in Hk. lia.
  - rewrite app_String. destruct k as [|k].
    + cbn [trim_head]. rewrite <- app_String.
      rewrite space_width_app by done.
      pose proof (space_width_le seqs (String ch s)) as Hle.
      destruct (space_width seqs (String ch s)) as [|j]; [done|].
      apply IH. unfold len in *. simpl in Hle. lia.
    + cbn [trim_head]. apply IH. unfold len in *. simpl in Hk. lia.
Qed.

Lemma wideSpaces_no_newline :
  Forall (Forall (λ b, b ≠ 10)) wideSpaces ∧
  Forall (Forall (λ b, b ≠ 10)) (map (@rev nat) wideSpaces).
Proof. split; unfold wideSpaces; cbn [map rev app]; repeat constructor; lia. Qed.

(** The line feed that ends a line is trimmed with the white space of the
    line. *)
Lemma TrimSpace_newline (s : string) :
  TrimSpace (s ++ String newline "") = TrimSpace s.
Proof.
  unfold TrimSpace, TrimLeftSpace.
  rewrite trim_head_newline by (apply wideSpaces_no_newline || lia).
  destruct (trim_head wideSpaces 0 s) as [|ch r] eqn:E; [done|].
  unfold TrimRightSpace. rewrite rev_string_app.
  change (rev_string (String newline "")) with (String newline "").
  by rewrite app_String, app_empty_l.
Qed.

Lemma readLines_final_newline (LineBreak : string) input cur st :
  readLines LineBreak st (splitLines cur (input ++ String newline "")) =
  readLines LineBreak st (splitLines cur input).
Proof.
  revert cur st. induction input as [|ch rest IH]; intros cur st.
  - rewrite app_empty_l. cbn [splitLines]. rewrite Ascii.eqb_refl.
    cbn [readLines]. rewrite TrimSpace_newline.
    destruct (readLine LineBreak st (TrimSpace cur)) as [st'|e]; [|done].
    change (TrimSpace "") with "". by rewrite readLine_empty.
  - rewrite app_String. cbn [splitLines]. destruct (Ascii.eqb ch newline).
    + cbn [readLines]. destruct (readLine _ _ _); [apply IH|done].
    + apply IH.
Qed.

Lemma slice_from_app (i : nat) (s t : string) :
  (i ≤ len s)%nat → slice_from i (s ++ t) = slice_from i s ++ t.
Proof.
  revert s. induction i as [|i IH]; intros s Hi; [done|].
  destruct s as [|ch s]; [unfold len in Hi; simpl in Hi; lia|].
  rewrite app_String. cbn [slice_from]. apply IH.
  unfold len in *. simpl in Hi. lia.
Qed.

Lemma skipBOM_final_newline (input : string) :
  skipBOM (input ++ String newline "") = skipBOM input ++ String newline "".
Proof.
  unfold skipBOM. destruct (decide (input = "")) as [->|Hne]; [done|].
  rewrite starts_with_app; [|done|repeat constructor; lia].
  destruct (starts_with [239; 187; 191] input) eqn:Hs; [|done].
  apply starts_with_length in Hs. by apply slice_from_app.
Qed.

(** X23.  A line feed at the end of the input makes no difference: the last
    line is read in the same way with and without it. *)
Theorem read_final_newline (LineBreak : string) c input :
  read LineBreak c (input ++ String newline "") = read LineBreak c input.
Proof.
  unfold read.
  by rewrite !readLoop_readLines, skipBOM_final_newline, readLines_final_newline.
Qed.
